(** * AMR developer interface: connection lifecycle, telemetry, view
      transform and log feed

    A shallow embedding of [src/components/AMRDeveloperInterface.jsx]
    (the operator console, component [TurtleBotInterface]) and of the
    monitor page's storage listener ([AMRMonitorPage]).

    Conventions of the embedding.
    - JavaScript numbers are read as real numbers ([R]): the arithmetic
      of the source is kept operation by operation, rounding of IEEE
      doubles is not modelled.  [Math.min], [Math.max] are [Rmin],
      [Rmax]; [Math.atan2], [Math.cos], [Math.sin], [Math.PI] are
      [atan2] (below), [cos], [sin], [PI].
    - React state cells ([useState]) and refs ([useRef]) are the fields
      of one record [state]; every handler is a function [state -> state].
    - [setTimeout]/[clearTimeout] are an explicit list of pending timers
      with due times on a millisecond clock; the events of the
      transport (rosbridge socket) are inputs of the step function. *)

From Stdlib Require Import Reals Lra Lia List String Ascii ZArith NArith Bool Arith.
Import ListNotations.

Open Scope R_scope.

(* ================================================================== *)
(** * Numbers *)

Module Num.

(** [Math.atan2(y, x)] on the reals (signed zeros do not exist in [R]:
    [atan2 0 0 = 0]). *)
Definition atan2 (y x : R) : R :=
  if Rlt_dec 0 x then atan (y / x)
  else if Rlt_dec x 0 then
         if Rle_dec 0 y then atan (y / x) + PI else atan (y / x) - PI
  else if Rlt_dec 0 y then PI / 2
  else if Rlt_dec y 0 then - (PI / 2)
  else 0.

(** The integer [n] closest to [r >= 0], the larger one on a tie: the
    choice of [Number.prototype.toFixed]. *)
Definition round_half_up (r : R) : Z := Int_part (r + 1 / 2).

(** The value denoted by the decimal string [x.toFixed(f)]; the sign is
    split off first, as the language does.  ([parseFloat] of that string
    is this value.) *)
Definition toFixed (f : nat) (x : R) : R :=
  if Rlt_dec x 0
  then - (IZR (round_half_up (- x * 10 ^ f)) / 10 ^ f)
  else IZR (round_half_up (x * 10 ^ f)) / 10 ^ f.

(** [a || b] on numbers: [0] is falsy. *)
Definition or_default (a b : R) : R := if Req_dec_T a 0 then b else a.

End Num.

(* ================================================================== *)
(** * The bounded log list *)

Module Logs.

(** [prev.slice(-n)]: the last [n] elements, all of them when there are
    fewer. *)
Definition slice_last {A : Type} (n : nat) (prev : list A) : list A :=
  skipn (List.length prev - n)%nat prev.

(** The updater of [addLog] and of the monitor's single-entry listener:
    [prev => [...prev.slice(-9), entry]]. *)
Definition append_log {A : Type} (entry : A) (prev : list A) : list A :=
  slice_last 9 prev ++ [entry].

(** The retained list after a run of appends. *)
Definition append_logs {A : Type} (entries : list A) (prev : list A) : list A :=
  fold_left (fun acc e => append_log e acc) entries prev.

End Logs.

(* ================================================================== *)
(** * The monitor page *)

Module Monitor.

Inductive key := amr_robot_state | amr_logs_state | amr_log_broadcast | other_key.

Section Listener.

(** Parsed JSON values; a log entry of the monitor is whatever value the
    broadcast key held. *)
Variable J : Type.

(** Reading the [logs] property of a parsed value: it throws on [null],
    may be missing (falsy), or is an array. *)
Inductive field := Throws | Falsy | Array (l : list J).
Variable logs_field : J -> field.

(** The log part of [handleStorageChange].  [newValue] is [None] when
    [e.newValue] is falsy, [Some None] when [JSON.parse] throws (the
    [catch] only prints), [Some (Some v)] when it parses to [v].
    The [amr_logs_state] key replaces the list ([logsData.logs || []]),
    the [amr_log_broadcast] key appends the entry after the last nine
    entries of the previous list. *)
Definition handleStorageChange
    (k : key) (newValue : option (option J)) (logs : list J) : list J :=
  match newValue with
  | None => logs
  | Some None => logs
  | Some (Some v) =>
      match k with
      | amr_logs_state =>
          match logs_field v with
          | Throws => logs
          | Falsy => []
          | Array l => l
          end
      | amr_log_broadcast => Logs.append_log v logs
      | _ => logs
      end
  end.

End Listener.

End Monitor.

(* ================================================================== *)
(** * Data model of the operator console *)

Module Data.

Record point := { pt_x : R; pt_y : R }.

(** [currentPose]: [{x, y, theta}], theta in degrees. *)
Record pose := { pose_x : R; pose_y : R; theta : R }.

(** [message.info] of a [nav_msgs/OccupancyGrid]; [origin_x], [origin_y]
    are [origin.position.x], [origin.position.y]. *)
Record mapInfo := {
  width : Z;
  height : Z;
  resolution : R;
  origin_x : R;
  origin_y : R
}.

(** A map message; [data] is [None] when the property is missing. *)
Record occupancyGrid := { info : mapInfo; data : option (list Z) }.

(** The fields of a [nav_msgs/Odometry] message that the console reads:
    [pose.pose.position.{x,y}], [pose.pose.orientation.{z,w}],
    [twist.twist.linear.x], [twist.twist.angular.z]. *)
Record odometry := {
  position_x : R;
  position_y : R;
  orientation_z : R;
  orientation_w : R;
  linear_x : R;
  angular_z : R
}.

(** The populated fields of an outgoing [geometry_msgs/Twist]. *)
Record twist := { twist_linear_x : R; twist_angular_z : R }.

Inductive stationType := charging | work.

Record station := {
  st_id : N;
  st_name : string;
  st_x : R;
  st_y : R;
  st_type : stationType
}.

Record waypoint := { wp_id : N; wp_x : R; wp_y : R; order : nat }.

(** The canvas element: its layout size ([clientWidth], [clientHeight])
    and its [width]/[height] attributes, which [drawMap] overwrites. *)
Record canvasEl := {
  clientWidth : R;
  clientHeight : R;
  canvas_width : R;
  canvas_height : R
}.

(** [data && data.length > 0] *)
Definition has_payload (m : occupancyGrid) : bool :=
  match data m with
  | Some (_ :: _) => true
  | _ => false
  end.

End Data.

(* ================================================================== *)
(** * The spatial renderer: the transform chain of [drawMap] *)

Module Renderer.
Import Data.

Section Transform.

Variable cv : canvasEl.
Variable i : mapInfo.
Variable mapZoom : R.
Variable mapOffset : point.

Definition displayWidth : R := Num.or_default (clientWidth cv) 800.
Definition displayHeight : R := Num.or_default (clientHeight cv) 400.

Definition baseScaleX : R := displayWidth / IZR (width i).
Definition baseScaleY : R := displayHeight / IZR (height i).
Definition baseScale : R := Rmin baseScaleX baseScaleY * (8 / 10).
Definition finalScale : R := baseScale * mapZoom.

Definition centerX : R := displayWidth / 2.
Definition centerY : R := displayHeight / 2.
Definition offsetX : R := centerX - (IZR (width i) * finalScale) / 2 + pt_x mapOffset.
Definition offsetY : R := centerY - (IZR (height i) * finalScale) / 2 + pt_y mapOffset.

(** ** The robot marker

    [parseFloat(currentPose.x)] and the like are the identity here: the
    pose holds numbers, and a decimal string stands for its value. *)

Definition robotMapX (p : pose) : R := (pose_x p - origin_x i) / resolution i.
Definition robotMapY (p : pose) : R :=
  IZR (height i) - (pose_y p - origin_y i) / resolution i.

Definition robotDisplayX (p : pose) : R := offsetX + robotMapX p * finalScale.
Definition robotDisplayY (p : pose) : R := offsetY + robotMapY p * finalScale.

(** The marker is painted only within 50 pixels of the surface. *)
Definition robotVisible (p : pose) : bool :=
  if Rle_dec (-50) (robotDisplayX p) then
    if Rle_dec (robotDisplayX p) (displayWidth + 50) then
      if Rle_dec (-50) (robotDisplayY p) then
        if Rle_dec (robotDisplayY p) (displayHeight + 50) then true else false
      else false
    else false
  else false.

(** Heading ray: from the marker to [(arrowX, arrowY)]. *)
Definition thetaRad (p : pose) : R := theta p * PI / 180.
Definition arrowLength : R := 20 * mapZoom.
Definition arrowX (p : pose) : R := robotDisplayX p + cos (thetaRad p) * arrowLength.
Definition arrowY (p : pose) : R := robotDisplayY p - sin (thetaRad p) * arrowLength.

(** ** The goal marker: the same chain applied to [goalPose] *)

Definition goalMapX (g : point) : R := (pt_x g - origin_x i) / resolution i.
Definition goalMapY (g : point) : R :=
  IZR (height i) - (pt_y g - origin_y i) / resolution i.
Definition goalDisplayX (g : point) : R := offsetX + goalMapX g * finalScale.
Definition goalDisplayY (g : point) : R := offsetY + goalMapY g * finalScale.

(** The world point to surface pixel transform, as [drawMap] composes it. *)
Definition forwardTransform (w : point) : point :=
  {| pt_x := goalDisplayX w; pt_y := goalDisplayY w |}.

(** ** Drawing commands of the robot and goal sections *)

Inductive drawCommand :=
| Arc (cx cy radius : R)
| Line (x0 y0 x1 y1 : R).

Definition drawRobot (p : pose) : list drawCommand :=
  if robotVisible p then
    [ Arc (robotDisplayX p) (robotDisplayY p) (8 * mapZoom);
      Line (robotDisplayX p) (robotDisplayY p) (arrowX p) (arrowY p);
      Arc (robotDisplayX p) (robotDisplayY p) (40 * mapZoom) ]
  else [].

Definition drawGoal (g : option point) : list drawCommand :=
  match g with
  | Some g => [ Arc (goalDisplayX g) (goalDisplayY g) (6 * mapZoom) ]
  | None => []
  end.

End Transform.

(** ** The click handler's pixel to world conversion

    The navigation branch of [handleMapClick]: [x], [y] are the click
    position relative to the canvas; it reads the canvas [height]
    attribute, the resolution and the grid origin. *)
Definition clickToWorld (cv : canvasEl) (i : mapInfo) (x y : R) : point :=
  {| pt_x := x * resolution i + origin_x i;
     pt_y := (canvas_height cv - y) * resolution i + origin_y i |}.

(** [drawMap] sets the canvas attributes to the display size. *)
Definition resizeCanvas (cv : canvasEl) : canvasEl :=
  {| clientWidth := clientWidth cv;
     clientHeight := clientHeight cv;
     canvas_width := displayWidth cv;
     canvas_height := displayHeight cv |}.

(** The inverse written in the specification (section 4.4):
    [gx = (px - originPx.x)/finalScale], [wx = gx*resolution + origin.x],
    [wy = (gridHeight - (py - originPx.y)/finalScale)*resolution + origin.y]. *)
Definition inverseTransform_spec
    (cv : canvasEl) (i : mapInfo) (mapZoom : R) (mapOffset : point) (p : point) : point :=
  let fs := finalScale cv i mapZoom in
  {| pt_x := (pt_x p - offsetX cv i mapZoom mapOffset) / fs * resolution i + origin_x i;
     pt_y := (IZR (height i) - (pt_y p - offsetY cv i mapZoom mapOffset) / fs)
             * resolution i + origin_y i |}.

End Renderer.

(* ================================================================== *)
(** * The console component: state *)

Module Console.
Import Data.

Inductive severity := Info | Success | Warning | Error.

(** The log texts, one constructor per call site of [addLog]. *)
Inductive logMessage :=
| MsgStartup                         (* initial entry of [logs] *)
| MsgRoslibLoaded                    (* mount effect, ROSLIB present *)
| MsgRoslibMissing                   (* mount effect, mock mode *)
| MsgSubscribingMap                  (* setupRosTopics: subscribing to /map *)
| MsgMapUpdate (w h : Z)             (* map handler: map update WxH *)
| MsgTopicsReady                     (* setupRosTopics: topics set up *)
| MsgMountTimeout                    (* initAndSetupROS: timed out *)
| MsgConnected                       (* both connection handlers *)
| MsgMountError                      (* initAndSetupROS: error event *)
| MsgMountClosed                     (* initAndSetupROS: close event *)
| MsgRobotStopped                    (* stopRobot *)
| MsgConnectFirst                    (* moveRobot while disconnected *)
| MsgMoveCommand (linear angular : R)(* moveRobot *)
| MsgStationAdded (name : string)    (* handleMapClick, mapping *)
| MsgWaypointAdded (order : nat)     (* handleMapClick, waypoints *)
| MsgGoalSet (x y : R)               (* handleMapClick, navigation *)
| MsgTrying (url : string)           (* initROS *)
| MsgTestTimeout                     (* initROS: socket test timed out *)
| MsgTestOk                          (* initROS: socket test opened *)
| MsgTestFailed                      (* initROS: socket test error *)
| MsgRosTimeout                      (* attemptROSConnection: timed out *)
| MsgRosError                        (* attemptROSConnection: error event *)
| MsgRosClosed                       (* attemptROSConnection: close event *)
| MsgConfirmed                       (* attemptROSConnection: 5 s check *)
| MsgNoWaypoints                     (* patrol button, no waypoint *)
| MsgPatrolStart
| MsgPatrolStop
| MsgGoCharging.                     (* quick action: go to charging station *)

Record logEntry := { time : N; type : severity; message : logMessage }.

(** The values given to [setRobotStatus]. *)
Inductive status :=
| StNotConnected        (* initial value *)
| StMountTimeout        (* initAndSetupROS timeout *)
| StConnected           (* connection handlers and the 5 s check *)
| StMountError
| StClosed              (* both close handlers *)
| StConnecting          (* initROS *)
| StTestTimeout         (* socket test timed out *)
| StTestFailed          (* socket test error *)
| StEstablishing        (* attemptROSConnection *)
| StRosTimeout          (* attemptROSConnection timeout *)
| StRosError.

Inductive mode := teleop | mapping | waypointsMode | navigation.

Inductive direction :=
| forward | backward | left | right | rotate_left | rotate_right | other_direction.

(** Which function created a [ROSLIB.Ros] instance and registered its
    three listeners. *)
Inductive creator := ByMount | ByInitROS.

(** A [ROSLIB.Ros] instance.  [inst_timeout] is the timer its listeners
    clear; [isConnected] is the transport's own flag (set when it emits
    "connection", cleared when it emits "close"). *)
Record rosInstance := {
  inst_id : nat;
  listeners : creator;
  inst_timeout : nat;
  isConnected : bool;
  closeCalled : bool
}.

(** The probe socket of [initROS] ([testWS]). *)
Record testSocket := { ws_id : nat; ws_timeout : nat; ws_closed : bool }.

Inductive topicName := cmd_vel | odom | map_topic.

(** A [ROSLIB.Topic] object. *)
Record topic := {
  topic_id : nat;
  topic_ros : nat;
  topic_name : topicName;
  subscribed : bool
}.

Inductive timerAction :=
| MountTimeout                 (* 10 s, initAndSetupROS *)
| SetupTopics (inst : nat)     (* 1 s / 0.5 s after a connection event *)
| TestTimeout (ws : nat)       (* 5 s, initROS *)
| RosTimeout                   (* 15 s, attemptROSConnection *)
| ManualCheck (inst : nat)     (* 5 s, attemptROSConnection *)
| DrawMap (m : occupancyGrid). (* deferred drawMap *)

Record timer := { timer_id : nat; due : N; action : timerAction }.

Inductive inbound := OdomMsg (o : odometry) | MapMsg (g : occupancyGrid).

Record connection := {
  rosConnected : bool;
  robotStatus : status;
  connectionAttempted : bool;
  rosRef : option nat;
  instances : list rosInstance;
  sockets : list testSocket
}.

Record session := {
  cmdVelRef : option nat;
  odomSubRef : option nat;
  mapSubRef : option nat;
  topics : list topic;
  intervals : list nat;            (* battery intervals, by instance *)
  setupCalls : list nat;           (* instances passed to setupRosTopics *)
  published : list (nat * twist)   (* messages handed to Topic.publish *)
}.

Record mapModel := {
  currentPose : pose;
  linearVel : R;
  angularVel : R;
  mapData : option occupancyGrid;
  stations : list station;
  waypoints : list waypoint;
  goalPose : option point
}.

Record viewState := {
  mapZoom : R;
  mapOffset : point;
  isDragging : bool;
  lastMousePos : point;
  canvas : canvasEl;
  rendered : list occupancyGrid    (* drawMap calls that reached the canvas *)
}.

Record panel := {
  currentMode : mode;
  newStationName : string;
  speed : R;
  angularSpeed : R;
  isPatrolling : bool;
  currentWaypointIndex : nat;
  logs : list logEntry;
  log_broadcast : option logEntry  (* localStorage key amr_log_broadcast *)
}.

Record runtime := { now : N; timers : list timer; nextId : nat }.

Record state := {
  conn : connection;
  sess : session;
  model : mapModel;
  view : viewState;
  ui : panel;
  rt : runtime
}.

(** ** Field updates

    The [useState] setters keep their names; the other cells are written
    with [set_<field>]. *)

Definition upd_conn (f : connection -> connection) (s : state) : state :=
  {| conn := f (conn s); sess := sess s; model := model s; view := view s;
     ui := ui s; rt := rt s |}.

Definition upd_sess (f : session -> session) (s : state) : state :=
  {| conn := conn s; sess := f (sess s); model := model s; view := view s;
     ui := ui s; rt := rt s |}.

Definition upd_model (f : mapModel -> mapModel) (s : state) : state :=
  {| conn := conn s; sess := sess s; model := f (model s); view := view s;
     ui := ui s; rt := rt s |}.

Definition upd_view (f : viewState -> viewState) (s : state) : state :=
  {| conn := conn s; sess := sess s; model := model s; view := f (view s);
     ui := ui s; rt := rt s |}.

Definition upd_ui (f : panel -> panel) (s : state) : state :=
  {| conn := conn s; sess := sess s; model := model s; view := view s;
     ui := f (ui s); rt := rt s |}.

Definition upd_rt (f : runtime -> runtime) (s : state) : state :=
  {| conn := conn s; sess := sess s; model := model s; view := view s;
     ui := ui s; rt := f (rt s) |}.

(** Cells of [conn]. *)

Definition setRosConnected v (s : state) : state :=
  upd_conn (fun c =>
    {| rosConnected := v; robotStatus := robotStatus c;
       connectionAttempted := connectionAttempted c; rosRef := rosRef c;
       instances := instances c; sockets := sockets c |}) s.

Definition setRobotStatus v (s : state) : state :=
  upd_conn (fun c =>
    {| rosConnected := rosConnected c; robotStatus := v;
       connectionAttempted := connectionAttempted c; rosRef := rosRef c;
       instances := instances c; sockets := sockets c |}) s.

Definition set_connectionAttempted v (s : state) : state :=
  upd_conn (fun c =>
    {| rosConnected := rosConnected c; robotStatus := robotStatus c;
       connectionAttempted := v; rosRef := rosRef c; instances := instances c;
       sockets := sockets c |}) s.

Definition set_rosRef v (s : state) : state :=
  upd_conn (fun c =>
    {| rosConnected := rosConnected c; robotStatus := robotStatus c;
       connectionAttempted := connectionAttempted c; rosRef := v;
       instances := instances c; sockets := sockets c |}) s.

Definition set_instances v (s : state) : state :=
  upd_conn (fun c =>
    {| rosConnected := rosConnected c; robotStatus := robotStatus c;
       connectionAttempted := connectionAttempted c; rosRef := rosRef c;
       instances := v; sockets := sockets c |}) s.

Definition set_sockets v (s : state) : state :=
  upd_conn (fun c =>
    {| rosConnected := rosConnected c; robotStatus := robotStatus c;
       connectionAttempted := connectionAttempted c; rosRef := rosRef c;
       instances := instances c; sockets := v |}) s.

(** Cells of [sess]. *)

Definition set_cmdVelRef v (s : state) : state :=
  upd_sess (fun c =>
    {| cmdVelRef := v; odomSubRef := odomSubRef c; mapSubRef := mapSubRef c;
       topics := topics c; intervals := intervals c;
       setupCalls := setupCalls c; published := published c |}) s.

Definition set_odomSubRef v (s : state) : state :=
  upd_sess (fun c =>
    {| cmdVelRef := cmdVelRef c; odomSubRef := v; mapSubRef := mapSubRef c;
       topics := topics c; intervals := intervals c;
       setupCalls := setupCalls c; published := published c |}) s.

Definition set_mapSubRef v (s : state) : state :=
  upd_sess (fun c =>
    {| cmdVelRef := cmdVelRef c; odomSubRef := odomSubRef c; mapSubRef := v;
       topics := topics c; intervals := intervals c;
       setupCalls := setupCalls c; published := published c |}) s.

Definition set_topics v (s : state) : state :=
  upd_sess (fun c =>
    {| cmdVelRef := cmdVelRef c; odomSubRef := odomSubRef c;
       mapSubRef := mapSubRef c; topics := v; intervals := intervals c;
       setupCalls := setupCalls c; published := published c |}) s.

Definition set_intervals v (s : state) : state :=
  upd_sess (fun c =>
    {| cmdVelRef := cmdVelRef c; odomSubRef := odomSubRef c;
       mapSubRef := mapSubRef c; topics := topics c; intervals := v;
       setupCalls := setupCalls c; published := published c |}) s.

Definition set_setupCalls v (s : state) : state :=
  upd_sess (fun c =>
    {| cmdVelRef := cmdVelRef c; odomSubRef := odomSubRef c;
       mapSubRef := mapSubRef c; topics := topics c; intervals := intervals c;
       setupCalls := v; published := published c |}) s.

Definition set_published v (s : state) : state :=
  upd_sess (fun c =>
    {| cmdVelRef := cmdVelRef c; odomSubRef := odomSubRef c;
       mapSubRef := mapSubRef c; topics := topics c; intervals := intervals c;
       setupCalls := setupCalls c; published := v |}) s.

(** Cells of [model]. *)

Definition setCurrentPose v (s : state) : state :=
  upd_model (fun c =>
    {| currentPose := v; linearVel := linearVel c; angularVel := angularVel c;
       mapData := mapData c; stations := stations c; waypoints := waypoints c;
       goalPose := goalPose c |}) s.

Definition setLinearVel v (s : state) : state :=
  upd_model (fun c =>
    {| currentPose := currentPose c; linearVel := v;
       angularVel := angularVel c; mapData := mapData c;
       stations := stations c; waypoints := waypoints c;
       goalPose := goalPose c |}) s.

Definition setAngularVel v (s : state) : state :=
  upd_model (fun c =>
    {| currentPose := currentPose c; linearVel := linearVel c;
       angularVel := v; mapData := mapData c; stations := stations c;
       waypoints := waypoints c; goalPose := goalPose c |}) s.

Definition setMapData v (s : state) : state :=
  upd_model (fun c =>
    {| currentPose := currentPose c; linearVel := linearVel c;
       angularVel := angularVel c; mapData := v; stations := stations c;
       waypoints := waypoints c; goalPose := goalPose c |}) s.

Definition setStations v (s : state) : state :=
  upd_model (fun c =>
    {| currentPose := currentPose c; linearVel := linearVel c;
       angularVel := angularVel c; mapData := mapData c; stations := v;
       waypoints := waypoints c; goalPose := goalPose c |}) s.

Definition setWaypoints v (s : state) : state :=
  upd_model (fun c =>
    {| currentPose := currentPose c; linearVel := linearVel c;
       angularVel := angularVel c; mapData := mapData c;
       stations := stations c; waypoints := v; goalPose := goalPose c |}) s.

Definition setGoalPose v (s : state) : state :=
  upd_model (fun c =>
    {| currentPose := currentPose c; linearVel := linearVel c;
       angularVel := angularVel c; mapData := mapData c;
       stations := stations c; waypoints := waypoints c; goalPose := v |}) s.

(** Cells of [view]. *)

Definition setMapZoom v (s : state) : state :=
  upd_view (fun c =>
    {| mapZoom := v; mapOffset := mapOffset c; isDragging := isDragging c;
       lastMousePos := lastMousePos c; canvas := canvas c;
       rendered := rendered c |}) s.

Definition setMapOffset v (s : state) : state :=
  upd_view (fun c =>
    {| mapZoom := mapZoom c; mapOffset := v; isDragging := isDragging c;
       lastMousePos := lastMousePos c; canvas := canvas c;
       rendered := rendered c |}) s.

Definition setIsDragging v (s : state) : state :=
  upd_view (fun c =>
    {| mapZoom := mapZoom c; mapOffset := mapOffset c; isDragging := v;
       lastMousePos := lastMousePos c; canvas := canvas c;
       rendered := rendered c |}) s.

Definition setLastMousePos v (s : state) : state :=
  upd_view (fun c =>
    {| mapZoom := mapZoom c; mapOffset := mapOffset c;
       isDragging := isDragging c; lastMousePos := v; canvas := canvas c;
       rendered := rendered c |}) s.

Definition set_canvas v (s : state) : state :=
  upd_view (fun c =>
    {| mapZoom := mapZoom c; mapOffset := mapOffset c;
       isDragging := isDragging c; lastMousePos := lastMousePos c;
       canvas := v; rendered := rendered c |}) s.

Definition set_rendered v (s : state) : state :=
  upd_view (fun c =>
    {| mapZoom := mapZoom c; mapOffset := mapOffset c;
       isDragging := isDragging c; lastMousePos := lastMousePos c;
       canvas := canvas c; rendered := v |}) s.

(** Cells of [ui]. *)

Definition setCurrentMode v (s : state) : state :=
  upd_ui (fun c =>
    {| currentMode := v; newStationName := newStationName c; speed := speed c;
       angularSpeed := angularSpeed c; isPatrolling := isPatrolling c;
       currentWaypointIndex := currentWaypointIndex c; logs := logs c;
       log_broadcast := log_broadcast c |}) s.

Definition setNewStationName v (s : state) : state :=
  upd_ui (fun c =>
    {| currentMode := currentMode c; newStationName := v; speed := speed c;
       angularSpeed := angularSpeed c; isPatrolling := isPatrolling c;
       currentWaypointIndex := currentWaypointIndex c; logs := logs c;
       log_broadcast := log_broadcast c |}) s.

Definition setSpeed v (s : state) : state :=
  upd_ui (fun c =>
    {| currentMode := currentMode c; newStationName := newStationName c;
       speed := v; angularSpeed := angularSpeed c;
       isPatrolling := isPatrolling c;
       currentWaypointIndex := currentWaypointIndex c; logs := logs c;
       log_broadcast := log_broadcast c |}) s.

Definition setAngularSpeed v (s : state) : state :=
  upd_ui (fun c =>
    {| currentMode := currentMode c; newStationName := newStationName c;
       speed := speed c; angularSpeed := v; isPatrolling := isPatrolling c;
       currentWaypointIndex := currentWaypointIndex c; logs := logs c;
       log_broadcast := log_broadcast c |}) s.

Definition setIsPatrolling v (s : state) : state :=
  upd_ui (fun c =>
    {| currentMode := currentMode c; newStationName := newStationName c;
       speed := speed c; angularSpeed := angularSpeed c; isPatrolling := v;
       currentWaypointIndex := currentWaypointIndex c; logs := logs c;
       log_broadcast := log_broadcast c |}) s.

Definition setCurrentWaypointIndex v (s : state) : state :=
  upd_ui (fun c =>
    {| currentMode := currentMode c; newStationName := newStationName c;
       speed := speed c; angularSpeed := angularSpeed c;
       isPatrolling := isPatrolling c; currentWaypointIndex := v;
       logs := logs c; log_broadcast := log_broadcast c |}) s.

Definition setLogs v (s : state) : state :=
  upd_ui (fun c =>
    {| currentMode := currentMode c; newStationName := newStationName c;
       speed := speed c; angularSpeed := angularSpeed c;
       isPatrolling := isPatrolling c;
       currentWaypointIndex := currentWaypointIndex c; logs := v;
       log_broadcast := log_broadcast c |}) s.

Definition set_log_broadcast v (s : state) : state :=
  upd_ui (fun c =>
    {| currentMode := currentMode c; newStationName := newStationName c;
       speed := speed c; angularSpeed := angularSpeed c;
       isPatrolling := isPatrolling c;
       currentWaypointIndex := currentWaypointIndex c; logs := logs c;
       log_broadcast := v |}) s.

(** Cells of [rt]. *)

Definition set_now v (s : state) : state :=
  upd_rt (fun c =>
    {| now := v; timers := timers c; nextId := nextId c |}) s.

Definition set_timers v (s : state) : state :=
  upd_rt (fun c =>
    {| now := now c; timers := v; nextId := nextId c |}) s.

Definition set_nextId v (s : state) : state :=
  upd_rt (fun c =>
    {| now := now c; timers := timers c; nextId := v |}) s.

(* ================================================================== *)
(** * The console component: handlers *)

(** ** Logging and timers *)

(** [addLog(type, message)]: the bounded append on [logs] and the
    single-entry broadcast for the monitor window. *)
Definition addLog (ty : severity) (m : logMessage) (s : state) : state :=
  let e := {| time := now (rt s); type := ty; message := m |} in
  set_log_broadcast (Some e) (setLogs (Logs.append_log e (logs (ui s))) s).

(** A fresh identifier (timer handles and object identities). *)
Definition fresh (s : state) : nat * state :=
  (nextId (rt s), set_nextId (S (nextId (rt s))) s).

Definition setTimeout (a : timerAction) (delay : N) (s : state) : nat * state :=
  let '(id, s) := fresh s in
  (id, set_timers
         (timers (rt s) ++ [{| timer_id := id; due := (now (rt s) + delay)%N; action := a |}])
         s).

Definition clearTimeout (id : nat) (s : state) : state :=
  set_timers (filter (fun t => negb (Nat.eqb (timer_id t) id)) (timers (rt s))) s.

(** ** Transport objects *)

Definition find_instance (id : nat) (s : state) : option rosInstance :=
  find (fun r => Nat.eqb (inst_id r) id) (instances (conn s)).

Definition update_instance (id : nat) (f : rosInstance -> rosInstance) (s : state) : state :=
  set_instances
    (map (fun r => if Nat.eqb (inst_id r) id then f r else r) (instances (conn s))) s.

Definition mark_connected (b : bool) (r : rosInstance) : rosInstance :=
  {| inst_id := inst_id r; listeners := listeners r; inst_timeout := inst_timeout r;
     isConnected := b; closeCalled := closeCalled r |}.

Definition mark_closeCalled (r : rosInstance) : rosInstance :=
  {| inst_id := inst_id r; listeners := listeners r; inst_timeout := inst_timeout r;
     isConnected := isConnected r; closeCalled := true |}.

(** [if (rosRef.current) rosRef.current.close()] *)
Definition closeCurrent (s : state) : state :=
  match rosRef (conn s) with
  | Some id => update_instance id mark_closeCalled s
  | None => s
  end.

(** [new ROSLIB.Ros({url})] together with the registration of the three
    listeners of [who] that clear timer [timeoutId]. *)
Definition newRos (who : creator) (id timeoutId : nat) (s : state) : state :=
  set_instances
    (instances (conn s) ++
     [{| inst_id := id; listeners := who; inst_timeout := timeoutId;
         isConnected := false; closeCalled := false |}]) s.

Definition find_socket (id : nat) (s : state) : option testSocket :=
  find (fun w => Nat.eqb (ws_id w) id) (sockets (conn s)).

(** [testWS.close()] *)
Definition closeSocket (id : nat) (s : state) : state :=
  set_sockets
    (map (fun w => if Nat.eqb (ws_id w) id
                   then {| ws_id := ws_id w; ws_timeout := ws_timeout w; ws_closed := true |}
                   else w) (sockets (conn s))) s.

(** ** drawMap, as far as the component state is concerned

    It returns before touching the canvas when the message has no
    payload; otherwise it resizes the canvas and paints. *)
Definition drawMap (m : occupancyGrid) (s : state) : state :=
  if has_payload m then
    set_rendered (rendered (view s) ++ [m])
      (set_canvas (Renderer.resizeCanvas (canvas (view s))) s)
  else s.

(** ** Topic session *)

Definition newTopic (id ros : nat) (n : topicName) (sub : bool) (s : state) : state :=
  set_topics
    (topics (sess s) ++
     [{| topic_id := id; topic_ros := ros; topic_name := n; subscribed := sub |}]) s.

(** [setupRosTopics(rosInstance)]: three new topic objects, the odometry
    and map ones subscribed, one battery interval.  Each [subscribe]
    follows the creation of its topic object (for the map topic one log
    line lies between), so the object is entered as subscribed. *)
Definition setupRosTopics (inst : nat) (s : state) : state :=
  let s := set_setupCalls (setupCalls (sess s) ++ [inst]) s in
  let '(c, s) := fresh s in
  let s := set_cmdVelRef (Some c) (newTopic c inst cmd_vel false s) in
  let '(o, s) := fresh s in
  let s := set_odomSubRef (Some o) (newTopic o inst odom true s) in
  let '(m, s) := fresh s in
  let s := set_mapSubRef (Some m) (newTopic m inst map_topic true s) in
  let s := addLog Info MsgSubscribingMap s in
  let s := set_intervals (intervals (sess s) ++ [inst]) s in
  addLog Success MsgTopicsReady s.

(** The odometry callback. *)
Definition onOdom (o : odometry) (s : state) : state :=
  let th := 2 * Num.atan2 (orientation_z o) (orientation_w o) in
  let s := setCurrentPose
             {| pose_x := Num.toFixed 3 (position_x o);
                pose_y := Num.toFixed 3 (position_y o);
                theta := Num.toFixed 1 (th * 180 / PI) |} s in
  let s := setLinearVel (Num.toFixed 2 (linear_x o)) s in
  setAngularVel (Num.toFixed 2 (angular_z o)) s.

(** The map callback. *)
Definition onMap (g : occupancyGrid) (s : state) : state :=
  if has_payload g then
    let s := setMapData (Some g) s in
    let '(_, s) := setTimeout (DrawMap g) 100%N s in
    addLog Success (MsgMapUpdate (width (info g)) (height (info g))) s
  else s.

(** ** The mount effect: initAndSetupROS and its listeners *)

Definition initAndSetupROS (s : state) : state :=
  if connectionAttempted (conn s) then s
  else
    let s := set_connectionAttempted true s in
    let s := closeCurrent s in
    let '(inst, s) := fresh s in
    let '(timeoutId, s) := setTimeout MountTimeout 10000%N s in
    let s := newRos ByMount inst timeoutId s in
    set_rosRef (Some inst) s.

Definition mountEffect (roslibLoaded : bool) (s : state) : state :=
  if roslibLoaded
  then initAndSetupROS (addLog Success MsgRoslibLoaded s)
  else addLog Warning MsgRoslibMissing s.

Definition onMountTimeout (s : state) : state :=
  let s := setRosConnected false s in
  let s := setRobotStatus StMountTimeout s in
  let s := addLog Error MsgMountTimeout s in
  set_connectionAttempted false s.

Definition mountOnConnection (r : rosInstance) (s : state) : state :=
  let s := clearTimeout (inst_timeout r) s in
  let s := setRosConnected true s in
  let s := setRobotStatus StConnected s in
  let s := addLog Success MsgConnected s in
  snd (setTimeout (SetupTopics (inst_id r)) 1000%N s).

Definition mountOnError (r : rosInstance) (s : state) : state :=
  let s := clearTimeout (inst_timeout r) s in
  let s := setRosConnected false s in
  let s := setRobotStatus StMountError s in
  let s := addLog Error MsgMountError s in
  set_connectionAttempted false s.

Definition mountOnClose (r : rosInstance) (s : state) : state :=
  let s := clearTimeout (inst_timeout r) s in
  let s := setRosConnected false s in
  let s := setRobotStatus StClosed s in
  let s := addLog Warning MsgMountClosed s in
  set_connectionAttempted false s.

(** ** The connect button: initROS and attemptROSConnection *)

Definition initROS (url : string) (s : state) : state :=
  let s := addLog Info (MsgTrying url) s in
  let s := setRosConnected false s in
  let s := setRobotStatus StConnecting s in
  let s := closeCurrent s in
  let '(ws, s) := fresh s in
  let '(testTimeout, s) := setTimeout (TestTimeout ws) 5000%N s in
  set_sockets
    (sockets (conn s) ++ [{| ws_id := ws; ws_timeout := testTimeout; ws_closed := false |}]) s.

Definition onTestTimeout (ws : nat) (s : state) : state :=
  let s := addLog Error MsgTestTimeout s in
  let s := closeSocket ws s in
  setRobotStatus StTestTimeout s.

Definition attemptROSConnection (s : state) : state :=
  let s := setRobotStatus StEstablishing s in
  let '(inst, s) := fresh s in
  let '(rosTimeout, s) := setTimeout RosTimeout 15000%N s in
  let s := newRos ByInitROS inst rosTimeout s in
  let '(_, s) := setTimeout (ManualCheck inst) 5000%N s in
  set_rosRef (Some inst) s.

Definition testOnOpen (w : testSocket) (s : state) : state :=
  let s := clearTimeout (ws_timeout w) s in
  let s := addLog Success MsgTestOk s in
  let s := closeSocket (ws_id w) s in
  attemptROSConnection s.

Definition testOnError (w : testSocket) (s : state) : state :=
  let s := clearTimeout (ws_timeout w) s in
  let s := addLog Error MsgTestFailed s in
  setRobotStatus StTestFailed s.

Definition onRosTimeout (s : state) : state :=
  let s := setRosConnected false s in
  let s := setRobotStatus StRosTimeout s in
  addLog Error MsgRosTimeout s.

Definition manualOnConnection (r : rosInstance) (s : state) : state :=
  let s := clearTimeout (inst_timeout r) s in
  let s := setRosConnected true s in
  let s := setRobotStatus StConnected s in
  let s := addLog Success MsgConnected s in
  snd (setTimeout (SetupTopics (inst_id r)) 500%N s).

Definition manualOnError (r : rosInstance) (s : state) : state :=
  let s := clearTimeout (inst_timeout r) s in
  let s := setRosConnected false s in
  let s := setRobotStatus StRosError s in
  addLog Error MsgRosError s.

Definition manualOnClose (r : rosInstance) (s : state) : state :=
  let s := clearTimeout (inst_timeout r) s in
  let s := setRosConnected false s in
  let s := setRobotStatus StClosed s in
  addLog Warning MsgRosClosed s.

(** The status check armed 5 s after [attemptROSConnection]. *)
Definition manualCheck (inst : nat) (s : state) : state :=
  match find_instance inst s with
  | Some r =>
      if isConnected r then
        let s := clearTimeout (inst_timeout r) s in
        let s := setRosConnected true s in
        let s := setRobotStatus StConnected s in
        let s := addLog Success MsgConfirmed s in
        setupRosTopics inst s
      else s
  | None => s
  end.

(** ** Teleoperation *)

Definition publishCmdVel (linear angular : R) (s : state) : state :=
  if rosConnected (conn s) then
    match cmdVelRef (sess s) with
    | Some t =>
        set_published
          (published (sess s) ++
           [(t, {| twist_linear_x := linear; twist_angular_z := angular |})]) s
    | None => s
    end
  else s.

Definition stopRobot (s : state) : state :=
  let s := publishCmdVel 0 0 s in
  let s := setIsPatrolling false s in
  addLog Warning MsgRobotStopped s.

Definition moveRobot (d : direction) (s : state) : state :=
  if rosConnected (conn s) then
    let '(linear, angular) :=
      match d with
      | forward => (speed (ui s), 0)
      | backward => (- speed (ui s), 0)
      | left => (0, angularSpeed (ui s))
      | right => (0, - angularSpeed (ui s))
      | rotate_left => (0, angularSpeed (ui s))
      | rotate_right => (0, - angularSpeed (ui s))
      | other_direction => (0, 0)
      end in
    let s := publishCmdVel linear angular s in
    addLog Info (MsgMoveCommand linear angular) s
  else addLog Error MsgConnectFirst s.

(** ** View transform controller *)

Definition redrawLater (s : state) : state :=
  match mapData (model s) with
  | Some m => snd (setTimeout (DrawMap m) 10%N s)
  | None => s
  end.

Definition handleMapWheel (deltaY : R) (s : state) : state :=
  let delta := if Rlt_dec 0 deltaY then 9 / 10 else 11 / 10 in
  let newZoom := Rmax (1 / 2) (Rmin 5 (mapZoom (view s) * delta)) in
  redrawLater (setMapZoom newZoom s).

Definition handleMapMouseDown (clientX clientY : R) (s : state) : state :=
  setLastMousePos {| pt_x := clientX; pt_y := clientY |} (setIsDragging true s).

Definition handleMapMouseMove (clientX clientY : R) (s : state) : state :=
  if isDragging (view s) then
    let deltaX := clientX - pt_x (lastMousePos (view s)) in
    let deltaY := clientY - pt_y (lastMousePos (view s)) in
    let s := setMapOffset {| pt_x := pt_x (mapOffset (view s)) + deltaX;
                             pt_y := pt_y (mapOffset (view s)) + deltaY |} s in
    let s := setLastMousePos {| pt_x := clientX; pt_y := clientY |} s in
    match mapData (model s) with
    | Some m => drawMap m s
    | None => s
    end
  else s.

Definition handleMapMouseUp (s : state) : state := setIsDragging false s.

Definition resetMapView (s : state) : state :=
  redrawLater (setMapOffset {| pt_x := 0; pt_y := 0 |} (setMapZoom 1 s)).

(** ** Interaction router *)

Definition is_space (c : ascii) : bool :=
  match nat_of_ascii c with
  | 9%nat | 10%nat | 11%nat | 12%nat | 13%nat | 32%nat => true
  | _ => false
  end.

(** [!name.trim()], for ASCII white space. *)
Fixpoint blank (name : string) : bool :=
  match name with
  | EmptyString => true
  | String c rest => is_space c && blank rest
  end.

(** [handleMapClick]; [x], [y] are the click position relative to the
    canvas rectangle, the new identifiers are [Date.now()]. *)
Definition handleMapClick (x y : R) (s : state) : state :=
  match mapData (model s) with
  | None => s
  | Some m =>
      match currentMode (ui s) with
      | mapping =>
          if blank (newStationName (ui s)) then s
          else
            let newStation :=
              {| st_id := now (rt s); st_name := newStationName (ui s);
                 st_x := x; st_y := y; st_type := work |} in
            let s := setStations (stations (model s) ++ [newStation]) s in
            let s := setNewStationName EmptyString s in
            addLog Success (MsgStationAdded (st_name newStation)) s
      | waypointsMode =>
          let newWaypoint :=
            {| wp_id := now (rt s); wp_x := x; wp_y := y;
               order := (List.length (waypoints (model s)) + 1)%nat |} in
          let s := setWaypoints (waypoints (model s) ++ [newWaypoint]) s in
          addLog Success (MsgWaypointAdded (order newWaypoint)) s
      | navigation =>
          let w := Renderer.clickToWorld (canvas (view s)) (info m) x y in
          let s := setGoalPose (Some w) s in
          addLog Info (MsgGoalSet (pt_x w) (pt_y w)) s
      | teleop => s
      end
  end.

Definition deleteStation (id : N) (s : state) : state :=
  setStations (filter (fun st => negb (N.eqb (st_id st) id)) (stations (model s))) s.

Definition togglePatrol (s : state) : state :=
  match waypoints (model s) with
  | [] => addLog Error MsgNoWaypoints s
  | _ :: _ =>
      let was := isPatrolling (ui s) in
      let s := setIsPatrolling (negb was) s in
      if was then addLog Info MsgPatrolStop s
      else addLog Info MsgPatrolStart (setCurrentWaypointIndex 0%nat s)
  end.

Definition goCharging (s : state) : state :=
  match find (fun st => match st_type st with charging => true | work => false end)
             (stations (model s)) with
  | Some st =>
      addLog Info MsgGoCharging
        (setGoalPose (Some {| pt_x := st_x st; pt_y := st_y st |}) s)
  | None => s
  end.

(** The cleanup of the mount effect. *)
Definition unmount (s : state) : state :=
  closeCurrent (set_connectionAttempted true s).

(* ================================================================== *)
(** * The console component: events *)

Definition fire (a : timerAction) (s : state) : state :=
  match a with
  | MountTimeout => onMountTimeout s
  | SetupTopics inst => setupRosTopics inst s
  | TestTimeout ws => onTestTimeout ws s
  | RosTimeout => onRosTimeout s
  | ManualCheck inst => manualCheck inst s
  | DrawMap m => drawMap m s
  end.

(** The pending timer that is due first (the oldest one on a tie). *)
Fixpoint earliest (l : list timer) : option timer :=
  match l with
  | [] => None
  | t :: rest =>
      match earliest rest with
      | None => Some t
      | Some u => if (due t <=? due u)%N then Some t else Some u
      end
  end.

Definition next_due (t : N) (l : list timer) : option timer :=
  match earliest l with
  | Some u => if (due u <=? t)%N then Some u else None
  | None => None
  end.

(** Fire, in order, the timers due by [t].  Firing never arms a timer,
    so one round per pending timer is enough. *)
Fixpoint run_timers (rounds : nat) (t : N) (s : state) : state :=
  match rounds with
  | O => s
  | S k =>
      match next_due t (timers (rt s)) with
      | None => s
      | Some u =>
          let s := set_now (N.max (now (rt s)) (due u)) s in
          let s := clearTimeout (timer_id u) s in
          run_timers k t (fire (action u) s)
      end
  end.

Definition advance (t : N) (s : state) : state :=
  let s := run_timers (List.length (timers (rt s))) t s in
  set_now (N.max (now (rt s)) t) s.

(** What the environment can do to the component. *)
Inductive event :=
| Mount (roslibLoaded : bool)
| Unmount
| ClickConnect (url : string)
| WsOpen (ws : nat)
| WsError (ws : nat)
| RosConnection (inst : nat)
| RosError (inst : nat)
| RosClose (inst : nat)
| Advance (t : N)
| TopicMessage (t : nat) (m : inbound)
| MoveRobot (d : direction)
| StopRobot
| MapWheel (deltaY : R)
| MapMouseDown (clientX clientY : R)
| MapMouseMove (clientX clientY : R)
| MapMouseUp
| ResetMapView
| MapClick (x y : R)
| SetCurrentMode (m : mode)
| SetNewStationName (name : string)
| SetSpeed (v : R)
| SetAngularSpeed (v : R)
| DeleteStation (id : N)
| TogglePatrol
| GoCharging.

(** Delivery of a topic message to the callback subscribed on that
    topic object. *)
Definition deliver (t : nat) (m : inbound) (s : state) : state :=
  match find (fun tp => Nat.eqb (topic_id tp) t) (topics (sess s)) with
  | Some tp =>
      if subscribed tp then
        match topic_name tp, m with
        | odom, OdomMsg o => onOdom o s
        | map_topic, MapMsg g => onMap g s
        | _, _ => s
        end
      else s
  | None => s
  end.

Definition step (s : state) (e : event) : state :=
  match e with
  | Mount b => mountEffect b s
  | Unmount => unmount s
  | ClickConnect url => initROS url s
  | WsOpen ws =>
      match find_socket ws s with
      | Some w => if ws_closed w then s else testOnOpen w s
      | None => s
      end
  | WsError ws =>
      match find_socket ws s with
      | Some w => if ws_closed w then s else testOnError w (closeSocket ws s)
      | None => s
      end
  | RosConnection inst =>
      match find_instance inst s with
      | Some r =>
          let s := update_instance inst (mark_connected true) s in
          match listeners r with
          | ByMount => mountOnConnection r s
          | ByInitROS => manualOnConnection r s
          end
      | None => s
      end
  | RosError inst =>
      match find_instance inst s with
      | Some r =>
          match listeners r with
          | ByMount => mountOnError r s
          | ByInitROS => manualOnError r s
          end
      | None => s
      end
  | RosClose inst =>
      match find_instance inst s with
      | Some r =>
          let s := update_instance inst (mark_connected false) s in
          match listeners r with
          | ByMount => mountOnClose r s
          | ByInitROS => manualOnClose r s
          end
      | None => s
      end
  | Advance t => advance t s
  | TopicMessage t m => deliver t m s
  | MoveRobot d => moveRobot d s
  | StopRobot => stopRobot s
  | MapWheel deltaY => handleMapWheel deltaY s
  | MapMouseDown x y => handleMapMouseDown x y s
  | MapMouseMove x y => handleMapMouseMove x y s
  | MapMouseUp => handleMapMouseUp s
  | ResetMapView => resetMapView s
  | MapClick x y => handleMapClick x y s
  | SetCurrentMode m => setCurrentMode m s
  | SetNewStationName name => setNewStationName name s
  | SetSpeed v => setSpeed v s
  | SetAngularSpeed v => setAngularSpeed v s
  | DeleteStation id => deleteStation id s
  | TogglePatrol => togglePatrol s
  | GoCharging => goCharging s
  end.

Definition run (s : state) (es : list event) : state := fold_left step es s.

(** ** The first render *)

Definition initial (clientW clientH : R) : state :=
  {| conn := {| rosConnected := false; robotStatus := StNotConnected;
                connectionAttempted := false; rosRef := None;
                instances := []; sockets := [] |};
     sess := {| cmdVelRef := None; odomSubRef := None; mapSubRef := None;
                topics := []; intervals := []; setupCalls := []; published := [] |};
     model := {| currentPose := {| pose_x := 0; pose_y := 0; theta := 0 |};
                 linearVel := 0; angularVel := 0; mapData := None;
                 stations :=
                   [ {| st_id := 1; st_name := "充電站"; st_x := 50; st_y := 50;
                        st_type := charging |};
                     {| st_id := 2; st_name := "工作站A"; st_x := 300; st_y := 80;
                        st_type := work |};
                     {| st_id := 3; st_name := "工作站B"; st_x := 350; st_y := 200;
                        st_type := work |} ];
                 waypoints :=
                   [ {| wp_id := 1; wp_x := 100; wp_y := 75; order := 1 |};
                     {| wp_id := 2; wp_x := 250; wp_y := 120; order := 2 |};
                     {| wp_id := 3; wp_x := 320; wp_y := 180; order := 3 |} ];
                 goalPose := None |};
     view := {| mapZoom := 1; mapOffset := {| pt_x := 0; pt_y := 0 |};
                isDragging := false; lastMousePos := {| pt_x := 0; pt_y := 0 |};
                canvas := {| clientWidth := clientW; clientHeight := clientH;
                             canvas_width := 300; canvas_height := 150 |};
                rendered := [] |};
     ui := {| currentMode := teleop; newStationName := EmptyString;
              speed := 2 / 10; angularSpeed := 5 / 10;
              isPatrolling := false; currentWaypointIndex := 0;
              logs := [ {| time := 0; type := Info; message := MsgStartup |} ];
              log_broadcast := None |};
     rt := {| now := 0; timers := []; nextId := 0 |} |}.

End Console.

(* ================================================================== *)
(** * Concrete inputs used below *)

Module Scenarios.
Import Data Console.

(** A 4x4 grid, one metre per cell, origin at the world origin. *)
Definition grid4 : mapInfo :=
  {| width := 4; height := 4; resolution := 1; origin_x := 0; origin_y := 0 |}.

Definition map4 : occupancyGrid :=
  {| info := grid4; data := Some (repeat 0%Z 16) |}.

(** The same header with an empty and with a missing payload. *)
Definition map4_empty : occupancyGrid := {| info := grid4; data := Some [] |}.
Definition map4_missing : occupancyGrid := {| info := grid4; data := None |}.

(** An 800x400 canvas after a first [drawMap]. *)
Definition surface : canvasEl :=
  Renderer.resizeCanvas
    {| clientWidth := 800; clientHeight := 400; canvas_width := 300; canvas_height := 150 |}.

Definition noPan : point := {| pt_x := 0; pt_y := 0 |}.

(** Telemetry: position (2,2), orientation z = 0, w = 1. *)
Definition odomAhead : odometry :=
  {| position_x := 2; position_y := 2; orientation_z := 0; orientation_w := 1;
     linear_x := 0; angular_z := 0 |}.

(** Telemetry whose heading is 0.04 degrees. *)
Definition odomSlight : odometry :=
  {| position_x := 0; position_y := 0;
     orientation_z := sin (PI / 9000); orientation_w := cos (PI / 9000);
     linear_x := 0; angular_z := 0 |}.

(** Telemetry with orientation z = 1, w = -1. *)
Definition odomWide : odometry :=
  {| position_x := 0; position_y := 0; orientation_z := 1; orientation_w := -1;
     linear_x := 0; angular_z := 0 |}.

(** The console after its start-up attempt failed (bridge not running):
    not connected, no timer pending. *)
Definition idle : state :=
  run (initial 800 400) [Mount true; RosError 0; RosClose 0].

Definition url : string := "ws://127.0.0.1:9090".

(** The operator connects; the probe socket opens; the transport reports
    the connection one second later; the clock runs on to 20 s. *)
Definition connectEarly : list event :=
  [ClickConnect url; WsOpen 2; Advance 1000; RosConnection 4; Advance 20000].

(** The same, the connection reported after six seconds. *)
Definition connectLate : list event :=
  [ClickConnect url; WsOpen 2; Advance 6000; RosConnection 4; Advance 20000].

(** No connection event at all. *)
Definition connectNever : list event :=
  [ClickConnect url; WsOpen 2; Advance 20000].

(** The start-up attempt succeeds and its topics are set up. *)
Definition connected : state :=
  run (initial 800 400) [Mount true; RosConnection 0; Advance 2000].

(** A second "connection" event for the same instance, then 2 s pass. *)
Definition duplicateConnection : list event :=
  [RosConnection 0; Advance 4000].

(** The delay between a "connection" event and the deferred
    [setupRosTopics], by the function that registered the listener. *)
Definition setupDelay (c : creator) : N :=
  match c with ByMount => 1000 | ByInitROS => 500 end.

(** Subscribed topic objects with a given name. *)
Definition subscriptions (n : topicName) (s : state) : nat :=
  List.length
    (filter (fun t => subscribed t &&
                      match topic_name t, n with
                      | cmd_vel, cmd_vel | odom, odom | map_topic, map_topic => true
                      | _, _ => false
                      end) (topics (sess s))).

(** A console with a map loaded, in a given interaction mode and with a
    given waypoint list. *)
Definition withMap (m : mode) (wps : list waypoint) : state :=
  setWaypoints wps (setCurrentMode m (setMapData (Some map4) (initial 800 400))).

End Scenarios.

(* ================================================================== *)
(** * The painter: grid cells, stations and the waypoint path *)

Module Paint.
Import Data.

(** The three cell colours of [drawMap]: '#ffffff', '#000000', '#d1d5db'. *)
Inductive color := white | black | gray.

(** The colour of a cell value; [None] is the [continue] on -1.  A read
    past the end of [data] gives [undefined], for which every comparison
    is false: the last branch. *)
Definition cellColor (value : option Z) : option color :=
  match value with
  | Some v =>
      if (v =? -1)%Z then None
      else if ((0 <=? v) && (v <? 25))%Z then Some white
      else if (65 <=? v)%Z then Some black
      else Some gray
  | None => Some gray
  end.

(** [Math.ceil] *)
Definition ceil (r : R) : Z := (- Int_part (- r))%Z.

(** [for (let v = from; v < bound; v += 2)]: the values the loop
    variable takes. *)
Fixpoint stepped (rounds : nat) (from bound : Z) : list Z :=
  match rounds with
  | O => []
  | S k => if (from <? bound)%Z then from :: stepped k (from + 2)%Z bound else []
  end.

(** The loop from 0; it ends within [bound] rounds. *)
Definition samples (bound : Z) : list Z := stepped (Z.to_nat bound) 0 bound.

(** One [fillRect]. *)
Record fill := {
  fill_color : color;
  fill_x : R;
  fill_y : R;
  fill_w : R;
  fill_h : R
}.

Section Grid.

Variable cv : canvasEl.
Variable i : mapInfo.
Variable mapZoom : R.
Variable mapOffset : point.
Variable cells : list Z.      (* [mapMessage.data] *)

Definition dataIndex (x y : Z) : Z := (y * width i + x)%Z.

Definition pixelX (x : Z) : R :=
  Renderer.offsetX cv i mapZoom mapOffset + IZR x * Renderer.finalScale cv i mapZoom.
Definition pixelY (y : Z) : R :=
  Renderer.offsetY cv i mapZoom mapOffset + IZR y * Renderer.finalScale cv i mapZoom.

(** [pixelX >= 0 && pixelX < displayWidth && pixelY >= 0 && pixelY < displayHeight] *)
Definition onSurface (px py : R) : bool :=
  if Rle_dec 0 px then
    if Rlt_dec px (Renderer.displayWidth cv) then
      if Rle_dec 0 py then
        if Rlt_dec py (Renderer.displayHeight cv) then true else false
      else false
    else false
  else false.

(** The body of the inner loop for the cell [(x, y)]. *)
Definition paintCell (x y : Z) : list fill :=
  match cellColor (nth_error cells (Z.to_nat (dataIndex x y))) with
  | None => []
  | Some c =>
      if onSurface (pixelX x) (pixelY y) then
        [{| fill_color := c; fill_x := pixelX x; fill_y := pixelY y;
            fill_w := IZR (ceil (Renderer.finalScale cv i mapZoom * 2));
            fill_h := IZR (ceil (Renderer.finalScale cv i mapZoom * 2)) |}]
      else []
  end.

(** The two nested loops: rows outermost, every second row and column. *)
Definition paintGrid : list fill :=
  flat_map (fun y => flat_map (fun x => paintCell x y) (samples (width i)))
           (samples (height i)).

(** The cells the loops read. *)
Definition cellsRead : list (Z * Z) :=
  flat_map (fun y => map (fun x => (x, y)) (samples (width i))) (samples (height i)).

(** ** Stations and waypoints: positions are scaled like grid cells *)

Definition markerX (x : R) : R :=
  Renderer.offsetX cv i mapZoom mapOffset + x * Renderer.finalScale cv i mapZoom.
Definition markerY (y : R) : R :=
  Renderer.offsetY cv i mapZoom mapOffset + y * Renderer.finalScale cv i mapZoom.



(** The dashed path: for each index [i] a line from [waypoints[i]] to
    [waypoints[(i + 1) % length]], drawn only when there are at least
    two waypoints. *)
Definition pathSegment (wps : list waypoint) (k : nat) : list Renderer.drawCommand :=
  match nth_error wps k, nth_error wps (S k mod List.length wps) with
  | Some current, Some next =>
      [Renderer.Line (markerX (wp_x current)) (markerY (wp_y current))
                     (markerX (wp_x next)) (markerY (wp_y next))]
  | _, _ => []
  end.

Definition drawPath (wps : list waypoint) : list Renderer.drawCommand :=
  if (1 <? List.length wps)%nat
  then flat_map (pathSegment wps) (seq 0 (List.length wps))
  else [].

End Grid.

(** The waypoint marker that is painted in the highlight colour:
    [index === currentWaypointIndex && isPatrolling]. *)
Definition highlighted (currentWaypointIndex : nat) (isPatrolling : bool) (index : nat) : bool :=
  Nat.eqb index currentWaypointIndex && isPatrolling.

End Paint.

(* ================================================================== *)
(** * The simulated battery *)

Module Battery.

(** The updater of the 10-second interval: [prev => Math.max(20, prev - 0.1)]. *)
Definition tick (prev : R) : R := Rmax 20 (prev - 1 / 10).

(** The level after [n] ticks. *)
Fixpoint after (n : nat) (level : R) : R :=
  match n with
  | O => level
  | S k => after k (tick level)
  end.

(** [useState(85)] *)
Definition initialLevel : R := 85.

(** The width of the monitor's battery bar, in percent:
    [Math.max(0, Math.min(100, battery))]. *)
Definition barWidth (level : R) : R := Rmax 0 (Rmin 100 level).

(** [getBatteryColor] of both pages. *)
Definition getBatteryColor (level : R) : string :=
  if Rlt_dec 60 level then "text-green-400"
  else if Rlt_dec 30 level then "text-yellow-400"
  else "text-red-400".

End Battery.

(* ================================================================== *)
(** * Status texts and their colour *)

Module StatusText.
Import Console.

(** The string given to [setRobotStatus] at each site.  (The text set
    in the [catch] of [attemptROSConnection] has no constructor, as no
    exception is modelled; it contains none of the words tested below.) *)
Definition statusText (st : status) : string :=
  match st with
  | StNotConnected => "未連接"
  | StMountTimeout => "連接超時"
  | StConnected => "已連接"
  | StMountError => "連接錯誤"
  | StClosed => "連接斷開"
  | StConnecting => "正在連接..."
  | StTestTimeout => "WebSocket 測試失敗"
  | StTestFailed => "WebSocket 連接失敗"
  | StEstablishing => "建立 ROS 連接..."
  | StRosTimeout => "ROS 連接超時"
  | StRosError => "ROS 連接錯誤"
  end.

(** [text.includes(word)].  Strings are UTF-8 byte sequences here; a
    word occurs in a text as a byte sequence exactly when it occurs as a
    sequence of characters. *)
Fixpoint includes (text word : string) : bool :=
  String.prefix word text
  || match text with
     | EmptyString => false
     | String _ rest => includes rest word
     end.

(** [getStatusColor], shared by the console and the monitor page. *)
Definition getStatusColor (text : string) : string :=
  if includes text "移動" || includes text "導航" || includes text "巡邏"
  then "text-blue-400"
  else if includes text "已到達" || includes text "已連接"
  then "text-green-400"
  else if includes text "停止" || includes text "錯誤"
  then "text-red-400"
  else if includes text "建圖"
  then "text-purple-400"
  else "text-gray-400".

End StatusText.

(* ================================================================== *)
(** * The cross-window mirror *)

Module Mirror.
Import Data Console.

(** The object written under [amr_robot_state]. *)
Record robotSnapshot := {
  snap_pose : pose;
  snap_battery : R;
  snap_status : status;
  snap_linear : R;
  snap_angular : R;
  snap_connected : bool;
  snap_timestamp : N
}.

(** Parsed values of the three keys.  A stored string is identified
    with the value it was made from ([JSON.parse] of [JSON.stringify]). *)
Inductive stored :=
| PlainEntry (e : logEntry)                    (* an element of a logs array *)
| EntryObj (e : logEntry) (timestamp : N)      (* value of amr_log_broadcast *)
| LogsObj (logs : list logEntry) (timestamp : N)  (* value of amr_logs_state *)
| StateObj (snapshot : robotSnapshot).         (* value of amr_robot_state *)

(** The [logs] property of a parsed value. *)
Definition logs_field (v : stored) : Monitor.field stored :=
  match v with
  | LogsObj l _ => Monitor.Array stored (map PlainEntry l)
  | _ => Monitor.Falsy stored
  end.

(** [localStorage], restricted to the three keys. *)
Record store := {
  amr_robot_state : option stored;
  amr_logs_state : option stored;
  amr_log_broadcast : option stored
}.

Definition emptyStore : store :=
  {| amr_robot_state := None; amr_logs_state := None; amr_log_broadcast := None |}.

(** ** The console's writes *)

(** [broadcastRobotState]; the battery level is not part of [state]. *)
Definition broadcastRobotState (battery : R) (s : state) (st : store) : store :=
  {| amr_robot_state :=
       Some (StateObj {| snap_pose := currentPose (model s);
                         snap_battery := battery;
                         snap_status := robotStatus (conn s);
                         snap_linear := linearVel (model s);
                         snap_angular := angularVel (model s);
                         snap_connected := rosConnected (conn s);
                         snap_timestamp := now (rt s) |});
     amr_logs_state := amr_logs_state st;
     amr_log_broadcast := amr_log_broadcast st |}.

(** [broadcastLogs] *)
Definition broadcastLogs (s : state) (st : store) : store :=
  {| amr_robot_state := amr_robot_state st;
     amr_logs_state := Some (LogsObj (logs (ui s)) (now (rt s)));
     amr_log_broadcast := amr_log_broadcast st |}.

(** The [localStorage.setItem] of [addLog]: the entry last logged. *)
Definition broadcastEntry (s : state) (st : store) : store :=
  {| amr_robot_state := amr_robot_state st;
     amr_logs_state := amr_logs_state st;
     amr_log_broadcast :=
       match log_broadcast (ui s) with
       | Some e => Some (EntryObj e (time e))
       | None => amr_log_broadcast st
       end |}.

(** The store once the console's writes for state [s] have run: the
    entry broadcast by [addLog], then the two effects. *)
Definition publish (battery : R) (s : state) (st : store) : store :=
  broadcastLogs s (broadcastRobotState battery s (broadcastEntry s st)).

(** ** The monitor page *)

Record monitor := { robotState : robotSnapshot; shown : list stored }.

Definition monitorInitial : monitor :=
  {| robotState := {| snap_pose := {| pose_x := 0; pose_y := 0; theta := 0 |};
                      snap_battery := 85; snap_status := StNotConnected;
                      snap_linear := 0; snap_angular := 0;
                      snap_connected := false; snap_timestamp := 0 |};
     shown := [] |}.

(** The one-second poll: both keys are read and, when present, replace
    what the page shows. *)
Definition poll (st : store) (m : monitor) : monitor :=
  {| robotState :=
       match amr_robot_state st with
       | Some (StateObj snap) => snap
       | _ => robotState m
       end;
     shown :=
       match amr_logs_state st with
       | Some v =>
           match logs_field v with
           | Monitor.Array _ l => l
           | Monitor.Falsy _ => []
           | Monitor.Throws _ => shown m
           end
       | None => shown m
       end |}.

(** A storage event for one of the log keys, with the value now held by
    the store. *)
Definition onStorage (k : Monitor.key) (st : store) (m : monitor) : monitor :=
  {| robotState :=
       match k, amr_robot_state st with
       | Monitor.amr_robot_state, Some (StateObj snap) => snap
       | _, _ => robotState m
       end;
     shown :=
       Monitor.handleStorageChange stored logs_field k
         (match k with
          | Monitor.amr_logs_state => option_map Some (amr_logs_state st)
          | Monitor.amr_log_broadcast => option_map Some (amr_log_broadcast st)
          | _ => None
          end) (shown m) |}.

(** The clear button: [setLogs([])] and
    [localStorage.removeItem('amr_logs_state')]. *)
Definition clearLogs (st : store) (m : monitor) : store * monitor :=
  ({| amr_robot_state := amr_robot_state st;
      amr_logs_state := None;
      amr_log_broadcast := amr_log_broadcast st |},
   {| robotState := robotState m; shown := [] |}).

End Mirror.

(* ================================================================== *)
(** * More concrete inputs *)

Module MoreScenarios.
Import Data Console Scenarios.

(** The block painted for cell (0,0) of the 4x4 grid, all cells free, on
    the 800x400 surface at zoom 1 without pan. *)
Definition block0 : Paint.fill :=
  {| Paint.fill_color := Paint.white;
     Paint.fill_x := Paint.pixelX surface grid4 1 noPan 0;
     Paint.fill_y := Paint.pixelY surface grid4 1 noPan 0;
     Paint.fill_w := IZR (Paint.ceil (Renderer.finalScale surface grid4 1 * 2));
     Paint.fill_h := IZR (Paint.ceil (Renderer.finalScale surface grid4 1 * 2)) |}.

(** A drag gesture: the mouse-move events through the given positions. *)
Definition dragMoves (moves : list point) : list event :=
  map (fun p => MapMouseMove (pt_x p) (pt_y p)) moves.


(** [station.type === 'charging'] *)
Definition isCharging (st : station) : bool :=
  match st_type st with charging => true | work => false end.

Definition chargingCount (s : state) : nat :=
  List.length (filter isCharging (stations (model s))).

(** The console between a "connection" event and the topic setup. *)
Definition justConnected : state := run (initial 800 400) [Mount true; RosConnection 0].



(** The list moved round by one place: [waypoints[(i + 1) % n]] for
    [i = 0 .. n-1]. *)
Definition rotate {A : Type} (l : list A) : list A :=
  match l with
  | [] => []
  | a :: rest => rest ++ [a]
  end.

End MoreScenarios.

(* ================================================================== *)
(** * Properties of the bounded log list *)

Module LogFacts.
Import Logs.

Section Slices.

Context {A : Type}.
Implicit Types (l prev full : list A) (e : A).

Lemma length_slice_last n l :
  List.length (slice_last n l) = Nat.min n (List.length l).
Proof. unfold slice_last. rewrite length_skipn. lia. Qed.

Lemma slice_last_snoc n l e :
  slice_last (S n) (l ++ [e]) = slice_last n l ++ [e].
Proof.
  unfold slice_last.
  rewrite length_app, skipn_app. cbn [List.length].
  replace (List.length l + 1 - S n)%nat with (List.length l - n)%nat by lia.
  replace (List.length l - n - List.length l)%nat with 0%nat by lia.
  reflexivity.
Qed.

Lemma slice_last_nested n m l :
  (n <= m)%nat -> slice_last n (slice_last m l) = slice_last n l.
Proof.
  intros Hnm. unfold slice_last.
  rewrite skipn_skipn, length_skipn. f_equal. lia.
Qed.

Lemma length_append_log e prev :
  (List.length (append_log e prev) <= 10)%nat.
Proof.
  unfold append_log. rewrite length_app, length_slice_last. cbn [List.length]. lia.
Qed.

(** Truncating at every append loses nothing that the last ten of the
    full history would show. *)
Lemma append_logs_window es :
  forall e prev full,
    slice_last 9 prev = slice_last 9 full ->
    append_logs (e :: es) prev = slice_last 10 (full ++ e :: es).
Proof.
  induction es as [|e' es IH]; intros e prev full Hwin.
  - cbn. unfold append_log. rewrite Hwin. symmetry. apply slice_last_snoc.
  - change (append_logs (e :: e' :: es) prev)
      with (append_logs (e' :: es) (append_log e prev)).
    rewrite (IH e' (append_log e prev) (full ++ [e])).
    + now rewrite <- app_assoc.
    + unfold append_log at 1. rewrite Hwin, <- slice_last_snoc.
      apply slice_last_nested. lia.
Qed.

End Slices.

End LogFacts.

(* ================================================================== *)
(** * Properties of the console *)

Module ConsoleFacts.
Import Data Console Scenarios.

Ltac unfold_handlers :=
  unfold step, mountEffect, initAndSetupROS, unmount, initROS, testOnOpen,
    testOnError, attemptROSConnection, onTestTimeout, onRosTimeout, onMountTimeout,
    mountOnConnection, mountOnError, mountOnClose,
    manualOnConnection, manualOnError, manualOnClose, manualCheck,
    deliver, onOdom, onMap, setupRosTopics, moveRobot, stopRobot, publishCmdVel,
    handleMapWheel, handleMapMouseDown, handleMapMouseMove, handleMapMouseUp,
    resetMapView, redrawLater, handleMapClick, deleteStation, togglePatrol,
    goCharging, drawMap, closeCurrent, closeSocket, newRos, newTopic,
    update_instance, find_instance, find_socket.

Ltac break_match :=
  match goal with
  | |- context [match ?x with _ => _ end] => destruct x eqn:?
  end.

(** Unfold a handler, split on every test it makes, and compute the
    field that is read back. *)
Ltac frame :=
  unfold_handlers;
  repeat (cbn -[Rmax Rmin]; try break_match);
  cbn -[Rmax Rmin]; try solve [reflexivity | congruence].

(** The same for the bound on the log list, which every [addLog]
    re-establishes. *)
Ltac bounded :=
  unfold_handlers;
  repeat (cbn -[Logs.append_log]; try break_match);
  cbn -[Logs.append_log];
  solve [assumption | apply LogFacts.length_append_log].

(** ** Timers: [advance] fires every timer that is due *)

Lemma earliest_in l u : earliest l = Some u -> In u l.
Proof.
  revert u. induction l as [|t rest IH]; intros u; cbn; [discriminate|].
  destruct (earliest rest) as [v|].
  - destruct (due t <=? due v)%N; intros [= <-]; auto.
  - intros [= <-]. auto.
Qed.

Lemma next_due_in t l u : next_due t l = Some u -> In u l.
Proof.
  unfold next_due. destruct (earliest l) as [v|] eqn:Hv; [|discriminate].
  destruct (due v <=? t)%N; intros [= <-]. now apply earliest_in.
Qed.

Lemma length_filter_le {A : Type} (f : A -> bool) l :
  (List.length (filter f l) <= List.length l)%nat.
Proof. induction l as [|a l IH]; cbn; [lia | destruct (f a); cbn; lia]. Qed.

Lemma length_cleared u l :
  In u l ->
  (List.length (filter (fun t => negb (Nat.eqb (timer_id t) (timer_id u))) l)
   < List.length l)%nat.
Proof.
  induction l as [|a l IH]; cbn; [tauto|]. intros [-> | Hin].
  - rewrite Nat.eqb_refl. cbn.
    pose proof (length_filter_le (fun t => negb (Nat.eqb (timer_id t) (timer_id u))) l).
    lia.
  - specialize (IH Hin). destruct (negb _); cbn; lia.
Qed.

(** No timer action arms a timer. *)
Lemma fire_timers a s :
  (List.length (timers (rt (fire a s))) <= List.length (timers (rt s)))%nat.
Proof.
  destruct a; unfold fire; unfold_handlers;
    repeat (cbn; try break_match); cbn; try apply length_filter_le; lia.
Qed.

Lemma run_timers_complete k t :
  forall s, (List.length (timers (rt s)) <= k)%nat ->
            next_due t (timers (rt (run_timers k t s))) = None.
Proof.
  induction k as [|k IH]; intros s Hlen; cbn [run_timers].
  - destruct (timers (rt s)); [reflexivity | cbn in Hlen; lia].
  - destruct (next_due t (timers (rt s))) as [u|] eqn:Hu; [|exact Hu].
    apply IH.
    eapply Nat.le_trans; [apply fire_timers|].
    apply next_due_in, length_cleared in Hu. cbn. lia.
Qed.

Lemma advance_complete t s : next_due t (timers (rt (advance t s))) = None.
Proof. unfold advance. cbn. now apply run_timers_complete. Qed.

(** ** The zoom level *)

Lemma clamp_range z : 1 / 2 <= Rmax (1 / 2) (Rmin 5 z) <= 5.
Proof.
  split.
  - apply Rmax_l.
  - apply Rmax_lub; [lra | apply Rmin_l].
Qed.

Lemma fire_mapZoom a s : mapZoom (view (fire a s)) = mapZoom (view s).
Proof. destruct a; unfold fire; frame. Qed.

Lemma run_timers_mapZoom k t :
  forall s, mapZoom (view (run_timers k t s)) = mapZoom (view s).
Proof.
  induction k as [|k IH]; intros s; cbn [run_timers]; [reflexivity|].
  destruct (next_due t (timers (rt s))); [|reflexivity].
  rewrite IH, fire_mapZoom. reflexivity.
Qed.

Lemma step_mapZoom s e :
  mapZoom (view (step s e)) =
  match e with
  | MapWheel deltaY =>
      Rmax (1 / 2)
        (Rmin 5 (mapZoom (view s) * (if Rlt_dec 0 deltaY then 9 / 10 else 11 / 10)))
  | ResetMapView => 1
  | _ => mapZoom (view s)
  end.
Proof.
  destruct e; try solve [frame].
  unfold step, advance. cbn. apply run_timers_mapZoom.
Qed.

Lemma step_zoom_range s e :
  1 / 2 <= mapZoom (view s) <= 5 -> 1 / 2 <= mapZoom (view (step s e)) <= 5.
Proof.
  intros Hz. rewrite step_mapZoom.
  destruct e; try exact Hz; [apply clamp_range | lra].
Qed.

Lemma run_zoom_range es :
  forall s, 1 / 2 <= mapZoom (view s) <= 5 ->
            1 / 2 <= mapZoom (view (run s es)) <= 5.
Proof.
  induction es as [|e es IH]; intros s Hz; [exact Hz|].
  apply IH, step_zoom_range, Hz.
Qed.

(** C8. The zoom of the view transform stays in [0.5, 5]: a wheel
    gesture multiplies it by 0.9 or 1.1 and clamps the product to that
    range; the reset puts the zoom back to 1 and the pan offset to
    (0, 0); and whatever the events delivered to the console since its
    first render, the zoom is in range. *)
Theorem zoom_stays_in_range :
  (forall deltaY s,
      mapZoom (view (handleMapWheel deltaY s))
      = Rmax (1 / 2)
          (Rmin 5 (mapZoom (view s) * (if Rlt_dec 0 deltaY then 9 / 10 else 11 / 10)))
      /\ 1 / 2 <= mapZoom (view (handleMapWheel deltaY s)) <= 5)
  /\ (forall s,
        mapZoom (view (resetMapView s)) = 1
        /\ mapOffset (view (resetMapView s)) = {| pt_x := 0; pt_y := 0 |})
  /\ (forall clientW clientH es,
        1 / 2 <= mapZoom (view (run (initial clientW clientH) es)) <= 5).
Proof.
  split; [|split].
  - intros deltaY s.
    assert (Heq := step_mapZoom s (MapWheel deltaY)). cbn [step] in Heq.
    split; [exact Heq | rewrite Heq; apply clamp_range].
  - intros s. split; frame.
  - intros clientW clientH es. apply run_zoom_range. cbn. lra.
Qed.

(** ** The log list of the console *)

Lemma addLog_logs ty m s :
  logs (ui (addLog ty m s))
  = Logs.append_log {| time := now (rt s); type := ty; message := m |} (logs (ui s)).
Proof. reflexivity. Qed.

Lemma fire_logs_bounded a s :
  (List.length (logs (ui s)) <= 10)%nat ->
  (List.length (logs (ui (fire a s))) <= 10)%nat.
Proof. intros Hle. destruct a; unfold fire; bounded. Qed.

Lemma run_timers_logs_bounded k t :
  forall s, (List.length (logs (ui s)) <= 10)%nat ->
            (List.length (logs (ui (run_timers k t s))) <= 10)%nat.
Proof.
  induction k as [|k IH]; intros s Hle; cbn [run_timers]; [exact Hle|].
  destruct (next_due t (timers (rt s))); [|exact Hle].
  apply IH, fire_logs_bounded. exact Hle.
Qed.

Lemma step_logs_bounded s e :
  (List.length (logs (ui s)) <= 10)%nat ->
  (List.length (logs (ui (step s e))) <= 10)%nat.
Proof.
  intros Hle. destruct e; try solve [bounded].
  unfold step, advance. cbn. now apply run_timers_logs_bounded.
Qed.

Lemma run_logs_bounded es :
  forall s, (List.length (logs (ui s)) <= 10)%nat ->
            (List.length (logs (ui (run s es))) <= 10)%nat.
Proof.
  induction es as [|e es IH]; intros s Hle; [exact Hle|].
  apply IH, step_logs_bounded, Hle.
Qed.

(** C10. The log list is bounded.  [addLog] keeps the last nine entries
    of the list and appends the new one, so at most ten entries are
    retained, and the console never holds more than ten whatever events
    it has received; the monitor's listener for the single-entry
    broadcast key does the same on its own list; and after any run of
    such appends the list is exactly the last ten entries of the full
    history. *)
Theorem log_list_bounded :
  (forall ty m s,
      logs (ui (addLog ty m s))
      = Logs.slice_last 9 (logs (ui s))
          ++ [{| time := now (rt s); type := ty; message := m |}]
      /\ (List.length (logs (ui (addLog ty m s))) <= 10)%nat)
  /\ (forall clientW clientH es,
        (List.length (logs (ui (run (initial clientW clientH) es))) <= 10)%nat)
  /\ (forall (J : Type) (logs_field : J -> Monitor.field J) (v : J) (prev : list J),
        Monitor.handleStorageChange J logs_field Monitor.amr_log_broadcast
          (Some (Some v)) prev
        = Logs.slice_last 9 prev ++ [v]
        /\ (List.length
              (Monitor.handleStorageChange J logs_field Monitor.amr_log_broadcast
                 (Some (Some v)) prev) <= 10)%nat)
  /\ (forall (A : Type) (e : A) (es prev : list A),
        Logs.append_logs (e :: es) prev = Logs.slice_last 10 (prev ++ e :: es)).
Proof.
  split; [|split; [|split]].
  - intros ty m s. rewrite addLog_logs. split; [reflexivity|].
    apply LogFacts.length_append_log.
  - intros clientW clientH es. apply run_logs_bounded. cbn. lia.
  - intros J logs_field v prev. cbn [Monitor.handleStorageChange]. split; [reflexivity|].
    apply LogFacts.length_append_log.
  - intros A e es prev. now apply LogFacts.append_logs_window.
Qed.

(** ** The outbound velocity channel *)

Lemma fire_published a s : published (sess (fire a s)) = published (sess s).
Proof. destruct a; unfold fire; frame. Qed.

Lemma run_timers_published k t :
  forall s, published (sess (run_timers k t s)) = published (sess s).
Proof.
  induction k as [|k IH]; intros s; cbn [run_timers]; [reflexivity|].
  destruct (next_due t (timers (rt s))); [|reflexivity].
  rewrite IH, fire_published. reflexivity.
Qed.

Lemma step_published s e :
  rosConnected (conn s) = false ->
  published (sess (step s e)) = published (sess s).
Proof.
  intros Hoff. destruct e; try solve [frame].
  unfold step, advance. cbn. apply run_timers_published.
Qed.

(** C9. While [rosConnected] is false nothing is published on the
    velocity topic: [publishCmdVel] returns at once (as it also does,
    connected or not, when the topic handle is absent), a move request
    only logs the "connect first" error, and no event of the console
    adds to the list of published messages. *)
Theorem disconnected_never_publishes s (Hoff : rosConnected (conn s) = false) :
  (forall linear angular, publishCmdVel linear angular s = s)
  /\ (forall linear angular s',
        publishCmdVel linear angular (set_cmdVelRef None s') = set_cmdVelRef None s')
  /\ (forall d, moveRobot d s = addLog Error MsgConnectFirst s)
  /\ (forall e, published (sess (step s e)) = published (sess s)).
Proof.
  repeat split.
  - intros linear angular. unfold publishCmdVel. now rewrite Hoff.
  - intros linear angular s'. unfold publishCmdVel. cbn.
    now destruct (rosConnected (conn s')).
  - intros d. unfold moveRobot. now rewrite Hoff.
  - intros e. now apply step_published.
Qed.

(** A console whose session was set up and whose connection then
    closed: the topic handle is still there, yet a move request
    publishes nothing. *)
Lemma disconnected_never_publishes_witness :
  rosConnected (conn (step connected (RosClose 0))) = false
  /\ cmdVelRef (sess (step connected (RosClose 0))) = Some 3%nat
  /\ published (sess (step (step connected (RosClose 0)) (MoveRobot forward)))
     = published (sess (step connected (RosClose 0))).
Proof.
  split; [reflexivity | split; [reflexivity|]].
  apply (disconnected_never_publishes (step connected (RosClose 0)) eq_refl).
Defined.

(** ** Waypoints *)

Lemma fire_waypoints a s : waypoints (model (fire a s)) = waypoints (model s).
Proof. destruct a; unfold fire; frame. Qed.

Lemma run_timers_waypoints k t :
  forall s, waypoints (model (run_timers k t s)) = waypoints (model s).
Proof.
  induction k as [|k IH]; intros s; cbn [run_timers]; [reflexivity|].
  destruct (next_due t (timers (rt s))); [|reflexivity].
  rewrite IH, fire_waypoints. reflexivity.
Qed.

(** Every event keeps the waypoints it finds, in place and unchanged. *)
Lemma step_waypoints s e :
  exists added, waypoints (model (step s e)) = waypoints (model s) ++ added.
Proof.
  destruct e;
    try solve [exists []; rewrite app_nil_r; frame].
  - exists []. rewrite app_nil_r. unfold step, advance. cbn.
    apply run_timers_waypoints.
  - unfold step, handleMapClick.
    destruct (mapData (model s)); [|exists []; now rewrite app_nil_r].
    destruct (currentMode (ui s));
      try solve [exists []; rewrite app_nil_r; frame].
    eexists. cbn. reflexivity.
Qed.

Lemma run_waypoints es :
  forall s, exists added, waypoints (model (run s es)) = waypoints (model s) ++ added.
Proof.
  induction es as [|e es IH]; intros s.
  - exists []. cbn. now rewrite app_nil_r.
  - destruct (IH (step s e)) as [a2 H2]. destruct (step_waypoints s e) as [a1 H1].
    exists (a1 ++ a2). cbn [run fold_left] in *. unfold run in H2.
    rewrite H2, H1. now rewrite app_assoc.
Qed.

(** C7. A click in waypoint mode appends a waypoint whose order is the
    current number of waypoints plus one; three such clicks on an empty
    list give the orders 1, 2, 3; and no event of the console changes or
    removes a waypoint already in the list (there is no waypoint
    deletion among the console's operations), so order values are never
    renumbered. *)
Theorem waypoint_order_assignment s m
    (Hmap : mapData (model s) = Some m)
    (Hmode : currentMode (ui s) = waypointsMode) :
  (forall x y,
      waypoints (model (handleMapClick x y s))
      = waypoints (model s)
          ++ [{| wp_id := now (rt s); wp_x := x; wp_y := y;
                 order := (List.length (waypoints (model s)) + 1)%nat |}])
  /\ (forall x1 y1 x2 y2 x3 y3,
        map order
          (waypoints (model (run (setWaypoints [] s)
                                 [MapClick x1 y1; MapClick x2 y2; MapClick x3 y3])))
        = [1; 2; 3]%nat)
  /\ (forall s' es,
        exists added,
          waypoints (model (run s' es)) = waypoints (model s') ++ added).
Proof.
  split; [|split].
  - intros x y. unfold handleMapClick. rewrite Hmap, Hmode. reflexivity.
  - intros x1 y1 x2 y2 x3 y3. cbn [run fold_left step].
    unfold handleMapClick. cbn. rewrite Hmap, Hmode. cbn.
    rewrite Hmap, Hmode. cbn. rewrite Hmap, Hmode. reflexivity.
  - intros s' es. apply run_waypoints.
Qed.

Lemma waypoint_order_assignment_witness :
  map order
    (waypoints (model (run (setWaypoints [] (withMap waypointsMode []))
                           [MapClick 10 20; MapClick 30 40; MapClick 50 60])))
  = [1; 2; 3]%nat.
Proof.
  apply (proj1 (proj2 (waypoint_order_assignment
                         (withMap waypointsMode []) map4 eq_refl eq_refl))).
Defined.

(** ** The occupancy-grid channel *)

Lemma has_payload_false g :
  has_payload g = false <-> data g = None \/ data g = Some [].
Proof.
  unfold has_payload. destruct (data g) as [[|c cells]|]; split; intros H;
    try reflexivity; try discriminate; auto; destruct H; discriminate.
Qed.

(** A message on a subscribed map topic reaches [onMap]. *)
Lemma deliver_map t tp g s :
  find (fun tp => Nat.eqb (topic_id tp) t) (topics (sess s)) = Some tp ->
  subscribed tp = true -> topic_name tp = map_topic ->
  step s (TopicMessage t (MapMsg g)) = onMap g s.
Proof.
  intros Hfind Hsub Hname. cbn [step]. unfold deliver.
  now rewrite Hfind, Hsub, Hname.
Qed.

(** C6. A map message with a non-empty payload replaces the stored grid
    by the message and arms a deferred [drawMap] of that message (which,
    when it fires, paints it); a message whose payload is empty or
    missing leaves the whole state as it was: grid unchanged, nothing
    logged, no render armed. *)
Theorem map_message_replaces_or_is_ignored g s :
  match data g with
  | Some (_ :: _) =>
      mapData (model (onMap g s)) = Some g
      /\ timers (rt (onMap g s))
         = timers (rt s)
             ++ [{| timer_id := nextId (rt s); due := (now (rt s) + 100)%N;
                    action := DrawMap g |}]
      /\ (forall s', rendered (view (fire (DrawMap g) s')) = rendered (view s') ++ [g])
  | Some [] | None => onMap g s = s
  end.
Proof.
  unfold onMap, fire, drawMap, has_payload.
  destruct (data g) as [[|c cells]|]; try reflexivity.
  repeat split.
Qed.

(** The three kinds of message on the console of the first render. *)
Lemma map_message_examples :
  mapData (model (onMap map4 (initial 800 400))) = Some map4
  /\ rendered (view (advance 100 (onMap map4 (initial 800 400)))) = [map4]
  /\ onMap map4_empty (initial 800 400) = initial 800 400
  /\ onMap map4_missing (initial 800 400) = initial 800 400.
Proof. repeat split. Qed.

(** ** Connection manager *)

(** The start-up attempt failed: the console is idle. *)
Lemma idle_is_idle :
  rosConnected (conn idle) = false
  /\ robotStatus (conn idle) = StClosed
  /\ timers (rt idle) = []
  /\ setupCalls (sess idle) = []
  /\ topics (sess idle) = [].
Proof. repeat split. Qed.

(** C2, as the code runs it.  From the idle console: connect, the probe
    socket opens, the transport reports one connection a second later,
    nothing else happens.  The console is connected, but
    [setupRosTopics] has run twice for that one connection: once from
    the connection listener (0.5 s later) and once from the status check
    armed 5 s after the attempt, which finds [isConnected] set.  Two
    odometry and two map subscriptions are live. *)
Theorem connect_then_connection_sets_up_twice :
  let s := run idle connectEarly in
  rosConnected (conn s) = true
  /\ robotStatus (conn s) = StConnected
  /\ setupCalls (sess s) = [4; 4]%nat
  /\ subscriptions odom s = 2%nat
  /\ subscriptions map_topic s = 2%nat
  /\ intervals (sess s) = [4; 4]%nat
  /\ timers (rt s) = [].
Proof. repeat split. Qed.

(** When the connection is reported after the 5 s check, the setup runs
    once. *)
Lemma connect_late_sets_up_once :
  let s := run idle connectLate in
  rosConnected (conn s) = true
  /\ robotStatus (conn s) = StConnected
  /\ setupCalls (sess s) = [4]%nat
  /\ subscriptions odom s = 1%nat
  /\ subscriptions map_topic s = 1%nat.
Proof. repeat split. Qed.

(** Without any connection event the 15 s timer reports the timeout. *)
Lemma connect_never_times_out :
  let s := run idle connectNever in
  rosConnected (conn s) = false
  /\ robotStatus (conn s) = StRosTimeout
  /\ setupCalls (sess s) = [].
Proof. repeat split. Qed.

(** The start-up path has no such check: one connection, one setup. *)
Lemma mount_connection_sets_up_once :
  rosConnected (conn connected) = true
  /\ robotStatus (conn connected) = StConnected
  /\ setupCalls (sess connected) = [0]%nat
  /\ subscriptions odom connected = 1%nat
  /\ subscriptions map_topic connected = 1%nat.
Proof. repeat split. Qed.

(** C3, as stated, fails: a second "connection" event delivered while
    the console is connected makes [setupRosTopics] run again; the
    subscriptions of the first session stay and a second set is added. *)
Lemma duplicate_connection_subscribes_again :
  rosConnected (conn connected) = true
  /\ setupCalls (sess connected) = [0]%nat
  /\ subscriptions odom connected = 1%nat
  /\ setupCalls (sess (run connected duplicateConnection)) = [0; 0]%nat
  /\ subscriptions odom (run connected duplicateConnection) = 2%nat
  /\ subscriptions map_topic (run connected duplicateConnection) = 2%nat.
Proof. repeat split. Qed.

(** C3, amended.  The connection listeners have no guard: every
    "connection" event delivered for an instance, whatever the state,
    marks the console connected and arms one deferred [setupRosTopics]
    for that instance; and [setupRosTopics], whenever it runs, records
    one more call and adds three fresh topic objects (cmd_vel, odom and
    map, the last two subscribed) without releasing earlier ones. *)
Theorem connection_event_always_arms_setup s inst r
    (Hinst : find_instance inst s = Some r) :
  (rosConnected (conn (step s (RosConnection inst))) = true
   /\ robotStatus (conn (step s (RosConnection inst))) = StConnected
   /\ timers (rt (step s (RosConnection inst)))
      = filter (fun t => negb (Nat.eqb (timer_id t) (inst_timeout r))) (timers (rt s))
          ++ [{| timer_id := nextId (rt s);
                 due := (now (rt s) + setupDelay (listeners r))%N;
                 action := SetupTopics inst |}])
  /\ (forall s',
        setupCalls (sess (fire (SetupTopics inst) s')) = setupCalls (sess s') ++ [inst]
        /\ topics (sess (fire (SetupTopics inst) s'))
           = topics (sess s')
               ++ [{| topic_id := nextId (rt s'); topic_ros := inst;
                      topic_name := cmd_vel; subscribed := false |};
                   {| topic_id := S (nextId (rt s')); topic_ros := inst;
                      topic_name := odom; subscribed := true |};
                   {| topic_id := S (S (nextId (rt s'))); topic_ros := inst;
                      topic_name := map_topic; subscribed := true |}]).
Proof.
  assert (Hid : inst_id r = inst).
  { unfold find_instance in Hinst. apply find_some in Hinst.
    now apply Nat.eqb_eq. }
  split.
  - cbn [step]. rewrite Hinst.
    destruct (listeners r); cbn; rewrite Hid; repeat split.
  - intros s'. split; [reflexivity|].
    unfold fire, setupRosTopics. cbn. now rewrite <- !app_assoc.
Qed.

Lemma connection_event_always_arms_setup_witness :
  setupCalls (sess (fire (SetupTopics 0) connected)) = [0; 0]%nat
  /\ rosConnected (conn (step connected (RosConnection 0))) = true.
Proof.
  pose proof (connection_event_always_arms_setup connected 0%nat
                {| inst_id := 0; listeners := ByMount; inst_timeout := 1;
                   isConnected := true; closeCalled := false |} eq_refl)
    as [[Hconn _] Hsetup].
  split; [apply (Hsetup connected) | exact Hconn].
Defined.

(** ** Facts about [atan2] and [toFixed] *)

Lemma atan2_right y x : 0 < x -> Num.atan2 y x = atan (y / x).
Proof. intros Hx. unfold Num.atan2. destruct (Rlt_dec 0 x); [reflexivity | contradiction]. Qed.

Lemma atan2_0_1 : Num.atan2 0 1 = 0.
Proof.
  rewrite atan2_right by lra.
  replace (0 / 1) with 0 by lra. apply atan_0.
Qed.

Lemma atan2_1_m1 : Num.atan2 1 (-1) = 3 * PI / 4.
Proof.
  unfold Num.atan2.
  destruct (Rlt_dec 0 (-1)); [lra|].
  destruct (Rlt_dec (-1) 0); [|lra].
  destruct (Rle_dec 0 1); [|lra].
  replace (1 / -1) with (Ropp 1) by lra.
  rewrite atan_opp, atan_1. lra.
Qed.

Lemma atan2_sin_cos a :
  - (PI / 2) < a < PI / 2 -> Num.atan2 (sin a) (cos a) = a.
Proof.
  intros Ha.
  rewrite atan2_right by (apply cos_gt_0; lra).
  change (sin a / cos a) with (tan a). now apply atan_tan.
Qed.

Lemma round_half_up_unique r n :
  IZR n - 1 / 2 <= r < IZR n + 1 / 2 -> Num.round_half_up r = n.
Proof.
  intros Hr. unfold Num.round_half_up. symmetry. apply Int_part_spec. lra.
Qed.

Lemma toFixed_3_two : Num.toFixed 3 2 = 2.
Proof.
  unfold Num.toFixed. destruct (Rlt_dec 2 0); [lra|].
  rewrite (round_half_up_unique _ 2000%Z) by (simpl; lra).
  simpl. lra.
Qed.

Lemma toFixed_1_zero : Num.toFixed 1 0 = 0.
Proof.
  unfold Num.toFixed. destruct (Rlt_dec 0 0); [lra|].
  rewrite (round_half_up_unique _ 0%Z) by (simpl; lra).
  simpl. lra.
Qed.

Lemma toFixed_1_270 : Num.toFixed 1 270 = 270.
Proof.
  unfold Num.toFixed. destruct (Rlt_dec 270 0); [lra|].
  rewrite (round_half_up_unique _ 2700%Z) by (simpl; lra).
  simpl. lra.
Qed.

Lemma toFixed_1_small : Num.toFixed 1 (4 / 100) = 0.
Proof.
  unfold Num.toFixed. destruct (Rlt_dec (4 / 100) 0); [lra|].
  rewrite (round_half_up_unique _ 0%Z) by (simpl; lra).
  simpl. lra.
Qed.

(** [toFixed] moves a number by at most half a unit of the last digit
    kept. *)
Lemma toFixed_error f x : Rabs (Num.toFixed f x - x) <= / 2 * / 10 ^ f.
Proof.
  assert (Hp : 0 < 10 ^ f) by (apply pow_lt; lra).
  assert (Hround : forall r, - (1 / 2) < IZR (Num.round_half_up r) - r <= 1 / 2).
  { intros r. unfold Num.round_half_up.
    destruct (base_Int_part (r + 1 / 2)) as [H1 H2]. lra. }
  assert (Hdiv : forall n r, IZR n / 10 ^ f - r / 10 ^ f = (IZR n - r) * / 10 ^ f)
    by (intros; field; lra).
  assert (Hinv : 0 < / 10 ^ f) by now apply Rinv_0_lt_compat.
  unfold Num.toFixed. destruct (Rlt_dec x 0).
  - specialize (Hround (- x * 10 ^ f)).
    replace (- (IZR (Num.round_half_up (- x * 10 ^ f)) / 10 ^ f) - x)
      with (- ((IZR (Num.round_half_up (- x * 10 ^ f)) - (- x * 10 ^ f)) * / 10 ^ f))
      by (field; lra).
    rewrite Rabs_Ropp. apply Rabs_le. nra.
  - specialize (Hround (x * 10 ^ f)).
    replace (IZR (Num.round_half_up (x * 10 ^ f)) / 10 ^ f - x)
      with ((IZR (Num.round_half_up (x * 10 ^ f)) - x * 10 ^ f) * / 10 ^ f)
      by (field; lra).
    apply Rabs_le. nra.
Qed.

(** ** Telemetry ingestion *)

Lemma onOdom_theta o s :
  theta (currentPose (model (onOdom o s)))
  = Num.toFixed 1 (2 * Num.atan2 (orientation_z o) (orientation_w o) * 180 / PI).
Proof. reflexivity. Qed.

Lemma heading_slight :
  2 * Num.atan2 (sin (PI / 9000)) (cos (PI / 9000)) * 180 / PI = 4 / 100.
Proof.
  assert (Hpi := PI_RGT_0).
  rewrite atan2_sin_cos by lra. field. lra.
Qed.

Lemma heading_wide : 2 * Num.atan2 1 (-1) * 180 / PI = 270.
Proof.
  assert (Hpi := PI_RGT_0). rewrite atan2_1_m1. field. lra.
Qed.

(** C4, as stated, fails: for the orientation z = sin(pi/9000),
    w = cos(pi/9000) the heading computed is 0.04 degrees, and the theta
    stored in the pose is 0, not the value computed. *)
Lemma odom_theta_not_stored_as_computed :
  2 * Num.atan2 (orientation_z odomSlight) (orientation_w odomSlight) * 180 / PI
  = 4 / 100
  /\ theta (currentPose (model (onOdom odomSlight (initial 800 400)))) = 0
  /\ theta (currentPose (model (onOdom odomSlight (initial 800 400))))
     <> 2 * Num.atan2 (orientation_z odomSlight) (orientation_w odomSlight) * 180 / PI.
Proof.
  assert (Hstored : theta (currentPose (model (onOdom odomSlight (initial 800 400)))) = 0).
  { rewrite onOdom_theta. cbn [odomSlight orientation_z orientation_w].
    rewrite heading_slight. apply toFixed_1_small. }
  split; [exact heading_slight | split; [exact Hstored|]].
  rewrite Hstored. cbn [odomSlight orientation_z orientation_w].
  rewrite heading_slight. lra.
Qed.

(** C4, amended.  For every telemetry message the handler computes
    2*atan2(z, w), converts it to degrees, and stores that value rounded
    to one decimal ([toFixed(1)]), hence within 0.05 of it; the angle is
    not wrapped into any range: orientation z = 1, w = -1 stores 270. *)
Theorem odom_theta_rounded_not_wrapped :
  (forall o s,
      theta (currentPose (model (onOdom o s)))
      = Num.toFixed 1 (2 * Num.atan2 (orientation_z o) (orientation_w o) * 180 / PI)
      /\ Rabs (theta (currentPose (model (onOdom o s)))
               - 2 * Num.atan2 (orientation_z o) (orientation_w o) * 180 / PI)
         <= 5 / 100)
  /\ (forall s, theta (currentPose (model (onOdom odomWide s))) = 270).
Proof.
  split.
  - intros o s. split; [reflexivity|].
    rewrite onOdom_theta.
    eapply Rle_trans; [apply toFixed_error | simpl; lra].
  - intros s. rewrite onOdom_theta. cbn [odomWide orientation_z orientation_w].
    rewrite heading_wide. apply toFixed_1_270.
Qed.

(** ** The robot marker *)

Lemma odomAhead_pose s :
  currentPose (model (onOdom odomAhead s)) = {| pose_x := 2; pose_y := 2; theta := 0 |}.
Proof.
  unfold onOdom. cbn.
  rewrite toFixed_3_two, atan2_0_1.
  replace (2 * 0 * 180 / PI) with 0 by (unfold Rdiv; ring).
  now rewrite toFixed_1_zero.
Qed.

(** C5. The renderer maps the pose (wx, wy) to the grid cell
    gx = (wx - origin.x)/resolution, gy = height - (wy - origin.y)/resolution
    and, when the marker is within 50 pixels of the surface, paints it
    at offset + cell * finalScale with its heading ray.  On the 4x4
    grid of resolution 1 and origin (0,0), the telemetry position (2,2)
    with orientation z = 0, w = 1 is stored with theta = 0 and drawn at
    cell (2,2), its heading ray ending 20*zoom pixels to the right of
    the marker at the same height, whatever the canvas and pan. *)
Theorem robot_marker_placement cv zoom pan (Hzoom : 1 / 2 <= zoom <= 5) :
  (forall i p,
      Renderer.robotMapX i p = (pose_x p - origin_x i) / resolution i
      /\ Renderer.robotMapY i p = IZR (height i) - (pose_y p - origin_y i) / resolution i
      /\ Renderer.robotDisplayX cv i zoom pan p
         = Renderer.offsetX cv i zoom pan
           + Renderer.robotMapX i p * Renderer.finalScale cv i zoom
      /\ Renderer.robotDisplayY cv i zoom pan p
         = Renderer.offsetY cv i zoom pan
           + Renderer.robotMapY i p * Renderer.finalScale cv i zoom
      /\ Renderer.drawRobot cv i zoom pan p
         = if Renderer.robotVisible cv i zoom pan p
           then [ Renderer.Arc (Renderer.robotDisplayX cv i zoom pan p)
                    (Renderer.robotDisplayY cv i zoom pan p) (8 * zoom);
                  Renderer.Line (Renderer.robotDisplayX cv i zoom pan p)
                    (Renderer.robotDisplayY cv i zoom pan p)
                    (Renderer.arrowX cv i zoom pan p) (Renderer.arrowY cv i zoom pan p);
                  Renderer.Arc (Renderer.robotDisplayX cv i zoom pan p)
                    (Renderer.robotDisplayY cv i zoom pan p) (40 * zoom) ]
           else [])
  /\ (forall s,
        let p := currentPose (model (onOdom odomAhead s)) in
        theta p = 0
        /\ Renderer.robotMapX grid4 p = 2
        /\ Renderer.robotMapY grid4 p = 2
        /\ Renderer.arrowX cv grid4 zoom pan p
           = Renderer.robotDisplayX cv grid4 zoom pan p + 20 * zoom
        /\ Renderer.arrowY cv grid4 zoom pan p = Renderer.robotDisplayY cv grid4 zoom pan p
        /\ Renderer.robotDisplayX cv grid4 zoom pan p < Renderer.arrowX cv grid4 zoom pan p).
Proof.
  split; [intros i p; repeat split|].
  intros s p. subst p. rewrite odomAhead_pose.
  assert (Hx : Renderer.arrowX cv grid4 zoom pan {| pose_x := 2; pose_y := 2; theta := 0 |}
               = Renderer.robotDisplayX cv grid4 zoom pan
                   {| pose_x := 2; pose_y := 2; theta := 0 |} + 20 * zoom).
  { unfold Renderer.arrowX, Renderer.thetaRad, Renderer.arrowLength. cbn [theta].
    replace (0 * PI / 180) with 0 by (unfold Rdiv; ring).
    rewrite cos_0. ring. }
  repeat split.
  - unfold Renderer.robotMapX. cbn. lra.
  - unfold Renderer.robotMapY. cbn. lra.
  - exact Hx.
  - unfold Renderer.arrowY, Renderer.thetaRad, Renderer.arrowLength. cbn [theta].
    replace (0 * PI / 180) with 0 by (unfold Rdiv; ring).
    rewrite sin_0. ring.
  - rewrite Hx. lra.
Qed.


Lemma robot_marker_placement_witness :
  1 / 2 <= 1 <= 5
  /\ Renderer.robotMapX grid4 (currentPose (model (onOdom odomAhead (initial 800 400)))) = 2
  /\ Renderer.robotMapY grid4 (currentPose (model (onOdom odomAhead (initial 800 400)))) = 2.
Proof.
  assert (Hzoom : 1 / 2 <= 1 <= 5) by lra.
  destruct (proj2 (robot_marker_placement surface 1 noPan Hzoom) (initial 800 400))
    as (_ & Hx & Hy & _).
  split; [exact Hzoom | split; [exact Hx | exact Hy]].
Defined.

(** ** The transform chain on the 800x400 surface *)

Lemma surface_display :
  Renderer.displayWidth surface = 800 /\ Renderer.displayHeight surface = 400
  /\ canvas_height surface = 400.
Proof.
  unfold surface, Renderer.resizeCanvas, Renderer.displayWidth, Renderer.displayHeight,
    Num.or_default.
  cbn. repeat destruct (Req_dec_T _ _); repeat split; lra.
Qed.

Lemma surface_scale : Renderer.finalScale surface grid4 1 = 80.
Proof.
  destruct surface_display as (Hw & Hh & _).
  unfold Renderer.finalScale, Renderer.baseScale, Renderer.baseScaleX, Renderer.baseScaleY.
  rewrite Hw, Hh. cbn [grid4 width height].
  unfold Rmin. destruct (Rle_dec (800 / 4) (400 / 4)); lra.
Qed.

Lemma surface_offset :
  Renderer.offsetX surface grid4 1 noPan = 240
  /\ Renderer.offsetY surface grid4 1 noPan = 40.
Proof.
  destruct surface_display as (Hw & Hh & _).
  unfold Renderer.offsetX, Renderer.offsetY, Renderer.centerX, Renderer.centerY.
  rewrite surface_scale, Hw, Hh. cbn. split; lra.
Qed.

(** The scenario of C5 on that surface: marker at pixel (400, 200), ray
    to (420, 200). *)
Lemma robot_marker_on_surface :
  let p := {| pose_x := 2; pose_y := 2; theta := 0 |} in
  Renderer.robotDisplayX surface grid4 1 noPan p = 400
  /\ Renderer.robotDisplayY surface grid4 1 noPan p = 200
  /\ Renderer.arrowX surface grid4 1 noPan p = 420
  /\ Renderer.arrowY surface grid4 1 noPan p = 200
  /\ Renderer.robotVisible surface grid4 1 noPan p = true.
Proof.
  intros p. destruct surface_offset as [Hox Hoy].
  destruct surface_display as (Hw & Hh & _).
  assert (Hx : Renderer.robotDisplayX surface grid4 1 noPan p = 400).
  { unfold Renderer.robotDisplayX, Renderer.robotMapX.
    rewrite Hox, surface_scale. cbn. lra. }
  assert (Hy : Renderer.robotDisplayY surface grid4 1 noPan p = 200).
  { unfold Renderer.robotDisplayY, Renderer.robotMapY.
    rewrite Hoy, surface_scale. cbn. lra. }
  assert (H0 : Renderer.thetaRad p = 0)
    by (unfold Renderer.thetaRad; cbn; unfold Rdiv; ring).
  repeat split; trivial.
  - unfold Renderer.arrowX, Renderer.arrowLength. rewrite Hx, H0, cos_0. lra.
  - unfold Renderer.arrowY, Renderer.arrowLength. rewrite Hy, H0, sin_0. lra.
  - unfold Renderer.robotVisible. rewrite Hx, Hy, Hw, Hh.
    repeat destruct (Rle_dec _ _); try reflexivity; lra.
Qed.

(** ** Forward transform and click conversion *)

(** The inverse written in the specification undoes the forward
    transform of [drawMap] for every zoom, pan, canvas and grid with a
    non-zero scale and resolution. *)
Lemma spec_inverse_roundtrip cv i zoom pan w :
  Renderer.finalScale cv i zoom <> 0 -> resolution i <> 0 ->
  Renderer.inverseTransform_spec cv i zoom pan (Renderer.forwardTransform cv i zoom pan w)
  = w.
Proof.
  intros Hfs Hres. destruct w as [wx wy].
  unfold Renderer.inverseTransform_spec, Renderer.forwardTransform,
    Renderer.goalDisplayX, Renderer.goalDisplayY, Renderer.goalMapX, Renderer.goalMapY.
  cbn [pt_x pt_y]. f_equal; field; auto.
Qed.

(** What the navigation click stores as goal. *)
Lemma handleMapClick_navigation s m x y :
  mapData (model s) = Some m -> currentMode (ui s) = navigation ->
  goalPose (model (handleMapClick x y s))
  = Some (Renderer.clickToWorld (canvas (view s)) (info m) x y).
Proof. intros Hmap Hmode. unfold handleMapClick. now rewrite Hmap, Hmode. Qed.

(** C1, as the code runs it.  On the 4x4 grid (resolution 1, origin
    (0,0)) drawn on the 800x400 surface at zoom 1 without pan, [drawMap]
    puts the world point (2,2) at pixel (400,200); the click conversion
    of [handleMapClick] turns that pixel into the world point (400,200),
    which is also the goal the handler stores, while the inverse written
    in the specification gives (2,2) back. *)
Theorem click_does_not_invert_forward_transform :
  let w := {| pt_x := 2; pt_y := 2 |} in
  Renderer.forwardTransform surface grid4 1 noPan w = {| pt_x := 400; pt_y := 200 |}
  /\ Renderer.clickToWorld surface grid4 400 200 = {| pt_x := 400; pt_y := 200 |}
  /\ goalPose (model (handleMapClick 400 200 (drawMap map4 (withMap navigation []))))
     = Some {| pt_x := 400; pt_y := 200 |}
  /\ Renderer.inverseTransform_spec surface grid4 1 noPan {| pt_x := 400; pt_y := 200 |} = w
  /\ Renderer.clickToWorld surface grid4 400 200 <> w.
Proof.
  intros w. destruct surface_offset as [Hox Hoy].
  destruct surface_display as (Hw & Hh & Hc).
  assert (Hfwd : Renderer.forwardTransform surface grid4 1 noPan w
                 = {| pt_x := 400; pt_y := 200 |}).
  { unfold Renderer.forwardTransform, Renderer.goalDisplayX, Renderer.goalDisplayY,
      Renderer.goalMapX, Renderer.goalMapY.
    rewrite Hox, Hoy, surface_scale. cbn. f_equal; lra. }
  assert (Hclick : Renderer.clickToWorld surface grid4 400 200
                   = {| pt_x := 400; pt_y := 200 |}).
  { unfold Renderer.clickToWorld. rewrite Hc. cbn. f_equal; lra. }
  repeat split.
  - exact Hfwd.
  - exact Hclick.
  - rewrite (handleMapClick_navigation _ map4) by reflexivity.
    change (canvas (view (drawMap map4 (withMap navigation [])))) with surface.
    change (info map4) with grid4. now rewrite Hclick.
  - rewrite <- Hfwd. apply spec_inverse_roundtrip.
    + rewrite surface_scale. lra.
    + cbn. lra.
  - rewrite Hclick. intros Heq.
    apply (f_equal pt_x) in Heq. cbn in Heq. lra.
Qed.

End ConsoleFacts.

(* ================================================================== *)
(** * Further properties *)

Module MoreFacts.
Import Data Console Scenarios MoreScenarios ConsoleFacts.

(** ** The grid painter *)

Lemma stepped_spec rounds :
  forall from bound z,
    (bound - from <= Z.of_nat rounds)%Z ->
    In z (Paint.stepped rounds from bound)
    <-> exists k, (0 <= k)%Z /\ z = (from + 2 * k)%Z /\ (z < bound)%Z.
Proof.
  induction rounds as [|rounds IH]; intros from bound z Hfuel; cbn [Paint.stepped].
  - split; [intros []|]. intros (k & Hk & -> & Hlt). lia.
  - destruct (from <? bound)%Z eqn:Hlt.
    + apply Z.ltb_lt in Hlt. cbn [In]. rewrite IH by lia. split.
      * intros [<- | (k & Hk & -> & Hb)].
        -- exists 0%Z. lia.
        -- exists (k + 1)%Z. lia.
      * intros (k & Hk & -> & Hb).
        destruct (Z.eq_dec k 0) as [-> | Hne]; [left; lia|].
        right. exists (k - 1)%Z. lia.
    + apply Z.ltb_ge in Hlt. split; [intros []|]. intros (k & Hk & -> & Hb). lia.
Qed.

Lemma samples_spec bound z :
  In z (Paint.samples bound) <-> (0 <= z < bound)%Z /\ Z.even z = true.
Proof.
  unfold Paint.samples. rewrite stepped_spec by lia. split.
  - intros (k & Hk & -> & Hb). split; [lia|].
    rewrite Z.add_0_l, Z.even_mul. reflexivity.
  - intros [Hz Heven]. apply Z.even_spec in Heven. destruct Heven as [k ->].
    exists k. lia.
Qed.

Lemma cellsRead_spec i x y :
  In (x, y) (Paint.cellsRead i)
  <-> In x (Paint.samples (width i)) /\ In y (Paint.samples (height i)).
Proof.
  unfold Paint.cellsRead. rewrite in_flat_map. split.
  - intros (y' & Hy & Hin). apply in_map_iff in Hin.
    destruct Hin as (x' & [= -> ->] & Hx). auto.
  - intros [Hx Hy]. exists y. split; [exact Hy|].
    apply in_map_iff. exists x. auto.
Qed.

Lemma flat_map_of_map {A B C : Type} (f : B -> list C) (g : A -> B) l :
  flat_map f (map g l) = flat_map (fun a => f (g a)) l.
Proof. induction l as [|a l IH]; cbn; [reflexivity | now rewrite IH]. Qed.

Lemma paintGrid_cellsRead cv i zoom pan cells :
  Paint.paintGrid cv i zoom pan cells
  = flat_map (fun c => Paint.paintCell cv i zoom pan cells (fst c) (snd c))
             (Paint.cellsRead i).
Proof.
  unfold Paint.paintGrid, Paint.cellsRead.
  induction (Paint.samples (height i)) as [|y ys IH]; cbn [flat_map]; [reflexivity|].
  rewrite flat_map_app, IH. f_equal. now rewrite flat_map_of_map.
Qed.

(** X1. The sampling loops of [drawMap] read exactly the cells whose
    column and row are both even; every index they compute lies inside a
    payload of width*height cells, so on a well-formed message no read
    falls past the end of the data. *)
Theorem grid_sampling_reads i (cells : list Z) :
  (forall x y,
      In (x, y) (Paint.cellsRead i)
      <-> (0 <= x < width i)%Z /\ Z.even x = true
          /\ (0 <= y < height i)%Z /\ Z.even y = true)
  /\ (forall x y,
        In (x, y) (Paint.cellsRead i) ->
        (0 <= Paint.dataIndex i x y < width i * height i)%Z
        /\ (List.length cells = Z.to_nat (width i * height i) ->
            exists v, nth_error cells (Z.to_nat (Paint.dataIndex i x y)) = Some v)).
Proof.
  assert (Hchar : forall x y,
             In (x, y) (Paint.cellsRead i)
             <-> (0 <= x < width i)%Z /\ Z.even x = true
                 /\ (0 <= y < height i)%Z /\ Z.even y = true).
  { intros x y. rewrite cellsRead_spec, !samples_spec. tauto. }
  split; [exact Hchar|].
  intros x y Hin. apply Hchar in Hin. destruct Hin as (Hx & _ & Hy & _).
  assert (Hidx : (0 <= Paint.dataIndex i x y < width i * height i)%Z)
    by (unfold Paint.dataIndex; nia).
  split; [exact Hidx|].
  intros Hlen.
  destruct (nth_error cells (Z.to_nat (Paint.dataIndex i x y))) as [v|] eqn:Hnth;
    [now exists v|].
  apply nth_error_None in Hnth. lia.
Qed.

Lemma ceil_bounds r : r <= IZR (Paint.ceil r) < r + 1.
Proof.
  unfold Paint.ceil. rewrite opp_IZR.
  destruct (base_Int_part (- r)) as [H1 H2]. lra.
Qed.

Lemma onSurface_true cv px py :
  Paint.onSurface cv px py = true ->
  0 <= px < Renderer.displayWidth cv /\ 0 <= py < Renderer.displayHeight cv.
Proof.
  unfold Paint.onSurface.
  repeat match goal with
         | |- context [if ?c then _ else _] => destruct c
         end; intros H; try discriminate; lra.
Qed.

(** X2. Every rectangle [drawMap] fills for a grid cell starts inside
    the surface, is a square, and its side is the cell-pair width
    2*finalScale rounded up to a whole pixel: neighbouring blocks leave
    no gap. *)
Theorem grid_fills_on_surface cv i zoom pan cells f :
  In f (Paint.paintGrid cv i zoom pan cells) ->
  0 <= Paint.fill_x f < Renderer.displayWidth cv
  /\ 0 <= Paint.fill_y f < Renderer.displayHeight cv
  /\ Paint.fill_w f = Paint.fill_h f
  /\ 2 * Renderer.finalScale cv i zoom <= Paint.fill_w f
     < 2 * Renderer.finalScale cv i zoom + 1.
Proof.
  rewrite paintGrid_cellsRead, in_flat_map.
  intros ([x y] & _ & Hin). cbn [fst snd] in Hin. unfold Paint.paintCell in Hin.
  destruct (Paint.cellColor _) as [c|]; [|contradiction].
  destruct (Paint.onSurface _ _ _) eqn:Hon; [|contradiction].
  destruct Hin as [<- | []]. cbn.
  apply onSurface_true in Hon.
  pose proof (ceil_bounds (Renderer.finalScale cv i zoom * 2)).
  repeat split; lra.
Qed.

Lemma block0_painted :
  In block0 (Paint.paintGrid surface grid4 1 noPan (repeat 0%Z 16)).
Proof.
  rewrite paintGrid_cellsRead, in_flat_map. exists (0%Z, 0%Z). split.
  - apply cellsRead_spec. rewrite !samples_spec. cbn. repeat split; lia.
  - cbn [fst snd]. unfold Paint.paintCell. cbn [Paint.dataIndex nth_error].
    change (Paint.cellColor _) with (Some Paint.white).
    destruct surface_offset as [Hox Hoy]. destruct surface_display as (Hw & Hh & _).
    assert (Hon : Paint.onSurface surface (Paint.pixelX surface grid4 1 noPan 0)
                    (Paint.pixelY surface grid4 1 noPan 0) = true).
    { unfold Paint.onSurface, Paint.pixelX, Paint.pixelY.
      rewrite Hox, Hoy, Hw, Hh, surface_scale.
      repeat match goal with
             | |- context [if ?c then _ else _] => destruct c
             end; try reflexivity; lra. }
    rewrite Hon. left. reflexivity.
Qed.

Lemma grid_fills_on_surface_witness :
  0 <= Paint.fill_x block0 < Renderer.displayWidth surface
  /\ 0 <= Paint.fill_y block0 < Renderer.displayHeight surface
  /\ Paint.fill_w block0 = Paint.fill_h block0
  /\ 2 * Renderer.finalScale surface grid4 1 <= Paint.fill_w block0
     < 2 * Renderer.finalScale surface grid4 1 + 1.
Proof.
  exact (grid_fills_on_surface surface grid4 1 noPan (repeat 0%Z 16) block0
           block0_painted).
Defined.

(** X3. Colour of a cell value: -1 is skipped, 0..24 is white, 65 and
    above is black, everything else is gray, including the values
    25..64, any value below -1, and a read past the end of the data. *)
Theorem cell_color_classes v :
  (Paint.cellColor (Some v) = None <-> v = (-1)%Z)
  /\ (Paint.cellColor (Some v) = Some Paint.white <-> (0 <= v < 25)%Z)
  /\ (Paint.cellColor (Some v) = Some Paint.black <-> (65 <= v)%Z)
  /\ (Paint.cellColor (Some v) = Some Paint.gray <-> (v < -1 \/ 25 <= v < 65)%Z)
  /\ Paint.cellColor None = Some Paint.gray.
Proof.
  unfold Paint.cellColor.
  destruct (v =? -1)%Z eqn:H1; [apply Z.eqb_eq in H1|apply Z.eqb_neq in H1];
    destruct (0 <=? v)%Z eqn:H2; [apply Z.leb_le in H2|apply Z.leb_gt in H2|
                                   apply Z.leb_le in H2|apply Z.leb_gt in H2];
    destruct (v <? 25)%Z eqn:H3; [apply Z.ltb_lt in H3|apply Z.ltb_ge in H3|
                                  apply Z.ltb_lt in H3|apply Z.ltb_ge in H3|
                                  apply Z.ltb_lt in H3|apply Z.ltb_ge in H3|
                                  apply Z.ltb_lt in H3|apply Z.ltb_ge in H3];
    destruct (65 <=? v)%Z eqn:H4;
    try apply Z.leb_le in H4; try apply Z.leb_gt in H4;
    cbn; repeat split; intros; try discriminate; try lia; try reflexivity.
Qed.


Lemma grid_sampling_reads_witness :
  (0 <= Paint.dataIndex grid4 2 2 < width grid4 * height grid4)%Z.
Proof.
  apply (proj2 (grid_sampling_reads grid4 (repeat 0%Z 16)) 2%Z 2%Z).
  apply (proj1 (grid_sampling_reads grid4 (repeat 0%Z 16))). cbn. repeat split; lia.
Defined.

(** ** Fit and centring of the grid *)

Lemma or_default_pos a b : 0 <= a -> 0 < b -> 0 < Num.or_default a b.
Proof. intros Ha Hb. unfold Num.or_default. destruct (Req_dec_T a 0); lra. Qed.

Lemma baseScale_bounds cv i :
  (0 < width i)%Z -> (0 < height i)%Z ->
  0 <= clientWidth cv -> 0 <= clientHeight cv ->
  0 < Renderer.baseScale cv i
  /\ IZR (width i) * Renderer.baseScale cv i <= Renderer.displayWidth cv * (8 / 10)
  /\ IZR (height i) * Renderer.baseScale cv i <= Renderer.displayHeight cv * (8 / 10).
Proof.
  intros Hw Hh Hcw Hch.
  assert (HW : 0 < IZR (width i)) by now apply IZR_lt.
  assert (HH : 0 < IZR (height i)) by now apply IZR_lt.
  assert (HdW : 0 < Renderer.displayWidth cv) by (apply or_default_pos; lra).
  assert (HdH : 0 < Renderer.displayHeight cv) by (apply or_default_pos; lra).
  unfold Renderer.baseScale, Renderer.baseScaleX, Renderer.baseScaleY.
  set (a := Renderer.displayWidth cv / IZR (width i)).
  set (b := Renderer.displayHeight cv / IZR (height i)).
  assert (Ha : 0 < a) by (apply Rdiv_lt_0_compat; assumption).
  assert (Hb : 0 < b) by (apply Rdiv_lt_0_compat; assumption).
  assert (Hwa : IZR (width i) * a = Renderer.displayWidth cv)
    by (unfold a; field; lra).
  assert (Hhb : IZR (height i) * b = Renderer.displayHeight cv)
    by (unfold b; field; lra).
  pose proof (Rmin_l a b) as Hl. pose proof (Rmin_r a b) as Hr.
  assert (Hpos : 0 < Rmin a b) by (apply Rmin_glb_lt; assumption).
  repeat split.
  - lra.
  - rewrite <- Hwa. nra.
  - rewrite <- Hhb. nra.
Qed.

(** X4. With no pan and a zoom of at most 1.25 the whole grid lies on
    the surface: [drawMap] scales it to 80% of the limiting dimension
    and centres it.  For every zoom and pan the centre of the grid is
    drawn at the centre of the surface shifted by the pan offset, so the
    wheel zooms about the grid centre. *)
Theorem grid_fits_and_is_centred cv i zoom
    (Hw : (0 < width i)%Z) (Hh : (0 < height i)%Z)
    (Hcw : 0 <= clientWidth cv) (Hch : 0 <= clientHeight cv)
    (Hzoom : 0 <= zoom <= 5 / 4) :
  (0 <= Renderer.offsetX cv i zoom noPan
   /\ Renderer.offsetX cv i zoom noPan + IZR (width i) * Renderer.finalScale cv i zoom
      <= Renderer.displayWidth cv
   /\ 0 <= Renderer.offsetY cv i zoom noPan
   /\ Renderer.offsetY cv i zoom noPan + IZR (height i) * Renderer.finalScale cv i zoom
      <= Renderer.displayHeight cv)
  /\ (forall z pan,
        Renderer.offsetX cv i z pan + IZR (width i) / 2 * Renderer.finalScale cv i z
        = Renderer.centerX cv + pt_x pan
        /\ Renderer.offsetY cv i z pan + IZR (height i) / 2 * Renderer.finalScale cv i z
           = Renderer.centerY cv + pt_y pan).
Proof.
  destruct (baseScale_bounds cv i Hw Hh Hcw Hch) as (Hb & HbW & HbH).
  assert (HW : 0 < IZR (width i)) by now apply IZR_lt.
  assert (HH : 0 < IZR (height i)) by now apply IZR_lt.
  assert (HdW : 0 < Renderer.displayWidth cv) by (apply or_default_pos; lra).
  assert (HdH : 0 < Renderer.displayHeight cv) by (apply or_default_pos; lra).
  split.
  - unfold Renderer.offsetX, Renderer.offsetY, Renderer.centerX, Renderer.centerY,
      Renderer.finalScale, noPan. cbn [pt_x pt_y].
    set (bs := Renderer.baseScale cv i) in *.
    assert (H1 : 0 <= IZR (width i) * bs) by nra.
    assert (H2 : 0 <= IZR (height i) * bs) by nra.
    assert (H3 : IZR (width i) * (bs * zoom) <= Renderer.displayWidth cv) by nra.
    assert (H4 : IZR (height i) * (bs * zoom) <= Renderer.displayHeight cv) by nra.
    repeat split; lra.
  - intros z pan.
    unfold Renderer.offsetX, Renderer.offsetY. split; field.
Qed.

Lemma grid_fits_and_is_centred_witness :
  0 <= Renderer.offsetX surface grid4 1 noPan
  /\ Renderer.offsetX surface grid4 1 noPan + IZR (width grid4) * Renderer.finalScale surface grid4 1
     <= Renderer.displayWidth surface
  /\ 0 <= Renderer.offsetY surface grid4 1 noPan
  /\ Renderer.offsetY surface grid4 1 noPan + IZR (height grid4) * Renderer.finalScale surface grid4 1
     <= Renderer.displayHeight surface.
Proof.
  refine (proj1 (grid_fits_and_is_centred surface grid4 1 _ _ _ _ _)).
  - reflexivity.
  - reflexivity.
  - cbn. lra.
  - cbn. lra.
  - lra.
Defined.

(** ** Where a clicked marker is drawn *)

(** X5. The goal stored by a navigation click at pixel (x, y) is drawn
    by [drawMap] at (offsetX + x*finalScale,
    offsetY + (height - canvas.height + y)*finalScale): the click
    conversion and the forward transform do not cancel. *)
Theorem goal_marker_after_click s m x y zoom pan
    (Hmap : mapData (model s) = Some m)
    (Hmode : currentMode (ui s) = navigation)
    (Hres : resolution (info m) <> 0) :
  Renderer.drawGoal (canvas (view s)) (info m) zoom pan
    (goalPose (model (handleMapClick x y s)))
  = [ Renderer.Arc
        (Renderer.offsetX (canvas (view s)) (info m) zoom pan
         + x * Renderer.finalScale (canvas (view s)) (info m) zoom)
        (Renderer.offsetY (canvas (view s)) (info m) zoom pan
         + (IZR (height (info m)) - canvas_height (canvas (view s)) + y)
           * Renderer.finalScale (canvas (view s)) (info m) zoom)
        (6 * zoom) ].
Proof.
  rewrite (handleMapClick_navigation s m x y Hmap Hmode).
  unfold Renderer.drawGoal, Renderer.goalDisplayX, Renderer.goalDisplayY,
    Renderer.goalMapX, Renderer.goalMapY, Renderer.clickToWorld.
  cbn [pt_x pt_y]. f_equal. f_equal; field; assumption.
Qed.

Lemma goal_marker_after_click_witness :
  Renderer.drawGoal (canvas (view (withMap navigation []))) grid4 1 noPan
    (goalPose (model (handleMapClick 400 200 (withMap navigation []))))
  = [ Renderer.Arc
        (Renderer.offsetX (canvas (view (withMap navigation []))) grid4 1 noPan
         + 400 * Renderer.finalScale (canvas (view (withMap navigation []))) grid4 1)
        (Renderer.offsetY (canvas (view (withMap navigation []))) grid4 1 noPan
         + (IZR (height grid4) - canvas_height (canvas (view (withMap navigation []))) + 200)
           * Renderer.finalScale (canvas (view (withMap navigation []))) grid4 1)
        (6 * 1) ].
Proof.
  apply (goal_marker_after_click (withMap navigation []) map4 400 200 1 noPan
           eq_refl eq_refl).
  cbn. lra.
Defined.




(** ** Drag and wheel gestures *)

Lemma run_app s es1 es2 : run s (es1 ++ es2) = run (run s es1) es2.
Proof. unfold run. apply fold_left_app. Qed.

Lemma last_coords (p : point) rest d :
  pt_x (last (p :: rest) d) = pt_x (last rest {| pt_x := pt_x p; pt_y := pt_y p |})
  /\ pt_y (last (p :: rest) d) = pt_y (last rest {| pt_x := pt_x p; pt_y := pt_y p |}).
Proof.
  destruct rest as [|q rest]; [split; reflexivity|].
  change (last (p :: q :: rest) d) with (last (q :: rest) d).
  assert (H : forall l (a b c : point), last (a :: l) b = last (a :: l) c).
  { induction l as [|a' l IH]; intros a b c; [reflexivity|].
    change (last (a :: a' :: l) b) with (last (a' :: l) b).
    change (last (a :: a' :: l) c) with (last (a' :: l) c). apply IH. }
  now rewrite (H rest q d {| pt_x := pt_x p; pt_y := pt_y p |}).
Qed.

Lemma step_move_dragging s x y :
  isDragging (view s) = true ->
  isDragging (view (step s (MapMouseMove x y))) = true
  /\ lastMousePos (view (step s (MapMouseMove x y))) = {| pt_x := x; pt_y := y |}
  /\ mapOffset (view (step s (MapMouseMove x y)))
     = {| pt_x := pt_x (mapOffset (view s)) + (x - pt_x (lastMousePos (view s)));
          pt_y := pt_y (mapOffset (view s)) + (y - pt_y (lastMousePos (view s))) |}
  /\ mapZoom (view (step s (MapMouseMove x y))) = mapZoom (view s).
Proof.
  intros Hdrag. cbn [step]. unfold handleMapMouseMove. rewrite Hdrag. cbn.
  destruct (mapData (model s)) as [m|]; unfold drawMap; cbn;
    try destruct (has_payload m); cbn; repeat split; try assumption.
Qed.

Lemma drag_moves moves :
  forall s,
    isDragging (view s) = true ->
    isDragging (view (run s (dragMoves moves))) = true
    /\ pt_x (mapOffset (view (run s (dragMoves moves))))
       = pt_x (mapOffset (view s))
         + (pt_x (last moves (lastMousePos (view s))) - pt_x (lastMousePos (view s)))
    /\ pt_y (mapOffset (view (run s (dragMoves moves))))
       = pt_y (mapOffset (view s))
         + (pt_y (last moves (lastMousePos (view s))) - pt_y (lastMousePos (view s)))
    /\ mapZoom (view (run s (dragMoves moves))) = mapZoom (view s).
Proof.
  induction moves as [|p rest IH]; intros s Hdrag.
  - cbn. repeat split; try assumption; lra.
  - destruct (step_move_dragging s (pt_x p) (pt_y p) Hdrag) as (Hd & Hl & Ho & Hz).
    change (run s (dragMoves (p :: rest)))
      with (run (step s (MapMouseMove (pt_x p) (pt_y p))) (dragMoves rest)).
    destruct (IH _ Hd) as (Hd' & Hx & Hy & Hz').
    destruct (last_coords p rest (lastMousePos (view s))) as [Hlx Hly].
    rewrite Hl in Hx, Hy. rewrite Ho in Hx, Hy. cbn [pt_x pt_y] in Hx, Hy.
    repeat split.
    + exact Hd'.
    + rewrite Hx, Hlx. lra.
    + rewrite Hy, Hly. lra.
    + now rewrite Hz'.
Qed.

(** X7. A drag gesture pans by the displacement of the pointer: after
    mouse-down at (x0, y0), any sequence of moves and mouse-up, the pan
    offset has grown by (last point - (x0, y0)) whatever the path, the
    zoom is unchanged, and later moves without a new mouse-down change
    nothing. *)
Theorem drag_pans_by_displacement s x0 y0 moves :
  pt_x (mapOffset (view (run s (MapMouseDown x0 y0 :: dragMoves moves ++ [MapMouseUp]))))
  = pt_x (mapOffset (view s)) + (pt_x (last moves {| pt_x := x0; pt_y := y0 |}) - x0)
  /\ pt_y (mapOffset (view (run s (MapMouseDown x0 y0 :: dragMoves moves ++ [MapMouseUp]))))
     = pt_y (mapOffset (view s)) + (pt_y (last moves {| pt_x := x0; pt_y := y0 |}) - y0)
  /\ mapZoom (view (run s (MapMouseDown x0 y0 :: dragMoves moves ++ [MapMouseUp])))
     = mapZoom (view s)
  /\ (forall x y,
        step (run s (MapMouseDown x0 y0 :: dragMoves moves ++ [MapMouseUp]))
             (MapMouseMove x y)
        = run s (MapMouseDown x0 y0 :: dragMoves moves ++ [MapMouseUp])).
Proof.
  change (run s (MapMouseDown x0 y0 :: dragMoves moves ++ [MapMouseUp]))
    with (run (step s (MapMouseDown x0 y0)) (dragMoves moves ++ [MapMouseUp])).
  rewrite run_app.
  set (s1 := step s (MapMouseDown x0 y0)).
  destruct (drag_moves moves s1 eq_refl) as (_ & Hx & Hy & Hz).
  set (s2 := run s1 (dragMoves moves)) in *.
  change (run s2 [MapMouseUp]) with (handleMapMouseUp s2).
  repeat split.
  - exact Hx.
  - exact Hy.
  - exact Hz.
Qed.

(** X8. Zooming in one notch and out one notch, in either order, does
    not restore the zoom: away from the clamps it leaves 0.99 of it.  At
    the bounds the clamp holds: zooming in at 5 stays at 5 and zooming
    out at 0.5 stays at 0.5. *)
Theorem zoom_in_out_drifts s (Hz : 5 / 9 <= mapZoom (view s) <= 50 / 11) :
  mapZoom (view (run s [MapWheel (-1); MapWheel 1])) = 99 / 100 * mapZoom (view s)
  /\ mapZoom (view (run s [MapWheel 1; MapWheel (-1)])) = 99 / 100 * mapZoom (view s)
  /\ (forall s', mapZoom (view (step (setMapZoom 5 s') (MapWheel (-1)))) = 5)
  /\ (forall s', mapZoom (view (step (setMapZoom (1 / 2) s') (MapWheel 1))) = 1 / 2).
Proof.
  assert (Hclamp : forall z, 1 / 2 <= z <= 5 -> Rmax (1 / 2) (Rmin 5 z) = z).
  { intros z Hzr. rewrite Rmin_right by lra. apply Rmax_right. lra. }
  assert (Hin : forall d : R, ~ 0 < d -> (if Rlt_dec 0 d then 9 / 10 else 11 / 10) = 11 / 10)
    by (intros d Hd; destruct (Rlt_dec 0 d); [contradiction | reflexivity]).
  assert (Hout : forall d : R, 0 < d -> (if Rlt_dec 0 d then 9 / 10 else 11 / 10) = 9 / 10)
    by (intros d Hd; destruct (Rlt_dec 0 d); [reflexivity | contradiction]).
  repeat split.
  - cbn [run fold_left]. rewrite !step_mapZoom.
    rewrite (Hin (-1)), (Hout 1) by lra.
    rewrite (Hclamp (mapZoom (view s) * (11 / 10))) by lra.
    rewrite Hclamp by lra. lra.
  - cbn [run fold_left]. rewrite !step_mapZoom.
    rewrite (Hin (-1)), (Hout 1) by lra.
    rewrite (Hclamp (mapZoom (view s) * (9 / 10))) by lra.
    rewrite Hclamp by lra. lra.
  - intros s'. rewrite step_mapZoom. rewrite (Hin (-1)) by lra. cbn.
    rewrite Rmin_left by lra. apply Rmax_right. lra.
  - intros s'. rewrite step_mapZoom. rewrite (Hout 1) by lra. cbn.
    rewrite Rmin_right by lra. apply Rmax_left. lra.
Qed.

Lemma zoom_in_out_drifts_witness :
  mapZoom (view (run (initial 800 400) [MapWheel (-1); MapWheel 1]))
  = 99 / 100 * mapZoom (view (initial 800 400)).
Proof.
  refine (proj1 (zoom_in_out_drifts (initial 800 400) _)). cbn. lra.
Defined.

(** ** Telemetry *)

(** X9. Telemetry is not filtered: a second odometry message overwrites
    what the first one stored (the result is the same as if only the
    second had arrived), and an odometry message touches nothing but the
    pose and the two velocities. *)
Theorem odom_last_message_wins o1 o2 s :
  onOdom o2 (onOdom o1 s) = onOdom o2 s
  /\ conn (onOdom o1 s) = conn s
  /\ sess (onOdom o1 s) = sess s
  /\ view (onOdom o1 s) = view s
  /\ ui (onOdom o1 s) = ui s
  /\ rt (onOdom o1 s) = rt s
  /\ mapData (model (onOdom o1 s)) = mapData (model s)
  /\ stations (model (onOdom o1 s)) = stations (model s)
  /\ waypoints (model (onOdom o1 s)) = waypoints (model s)
  /\ goalPose (model (onOdom o1 s)) = goalPose (model s).
Proof. repeat split. Qed.

Lemma atan2_range y x : - PI < Num.atan2 y x <= PI.
Proof.
  assert (Hpi := PI_RGT_0).
  pose proof (atan_bound (y / x)) as Hb.
  unfold Num.atan2.
  destruct (Rlt_dec 0 x) as [Hx|Hx]; [lra|].
  destruct (Rlt_dec x 0) as [Hx'|Hx'].
  - destruct (Rle_dec 0 y) as [Hy|Hy].
    + assert (Hq : y / x <= 0).
      { unfold Rdiv. assert (/ x < 0) by now apply Rinv_lt_0_compat. nra. }
      assert (Ha : atan (y / x) <= 0).
      { destruct Hq as [Hq|Hq].
        - apply Rlt_le. rewrite <- atan_0. now apply atan_increasing.
        - rewrite Hq, atan_0. lra. }
      lra.
    + assert (Hq : 0 < y / x).
      { unfold Rdiv. assert (/ x < 0) by now apply Rinv_lt_0_compat. nra. }
      assert (Ha : 0 < atan (y / x)).
      { rewrite <- atan_0. now apply atan_increasing. }
      lra.
  - destruct (Rlt_dec 0 y); [lra|]. destruct (Rlt_dec y 0); lra.
Qed.

Lemma round_half_up_nonneg r : 0 <= r -> (0 <= Num.round_half_up r)%Z.
Proof.
  intros Hr. unfold Num.round_half_up.
  destruct (base_Int_part (r + 1 / 2)) as [_ H2].
  assert (H : IZR (-1) < IZR (Int_part (r + 1 / 2))) by lra.
  apply lt_IZR in H. lia.
Qed.

Lemma round_half_up_le r n : r <= IZR n -> (Num.round_half_up r <= n)%Z.
Proof.
  intros Hr. unfold Num.round_half_up.
  destruct (base_Int_part (r + 1 / 2)) as [H1 _].
  assert (H : IZR (Int_part (r + 1 / 2)) < IZR (n + 1)) by (rewrite plus_IZR; lra).
  apply lt_IZR in H. lia.
Qed.

Lemma toFixed_1_range x : - 360 <= x <= 360 -> - 360 <= Num.toFixed 1 x <= 360.
Proof.
  intros Hx. unfold Num.toFixed. simpl pow.
  destruct (Rlt_dec x 0) as [Hneg|Hpos].
  - pose proof (round_half_up_nonneg (- x * (10 * 1)) ltac:(lra)) as H0.
    pose proof (round_half_up_le (- x * (10 * 1)) 3600 ltac:(lra)) as H1.
    apply IZR_le in H0, H1. lra.
  - pose proof (round_half_up_nonneg (x * (10 * 1)) ltac:(lra)) as H0.
    pose proof (round_half_up_le (x * (10 * 1)) 3600 ltac:(lra)) as H1.
    apply IZR_le in H0, H1. lra.
Qed.

(** X10. Whatever the orientation reported, the heading stored in the
    pose lies between -360 and 360 degrees (twice the range of atan2). *)
Theorem odom_theta_range o s :
  - 360 <= theta (currentPose (model (onOdom o s))) <= 360.
Proof.
  rewrite onOdom_theta. apply toFixed_1_range.
  assert (Hpi := PI_RGT_0).
  pose proof (atan2_range (orientation_z o) (orientation_w o)) as [Hlo Hhi].
  set (a := Num.atan2 (orientation_z o) (orientation_w o)) in *.
  replace (2 * a * 180 / PI) with (360 * (a / PI)) by (field; lra).
  assert (H1 : -1 < a / PI).
  { apply Rmult_lt_reg_r with PI; [lra|]. unfold Rdiv.
    rewrite Rmult_assoc, Rinv_l by lra. lra. }
  assert (H2 : a / PI <= 1).
  { apply Rmult_le_reg_r with PI; [lra|]. unfold Rdiv.
    rewrite Rmult_assoc, Rinv_l by lra. lra. }
  lra.
Qed.

Lemma toFixed_fixed_point f x : Num.toFixed f (Num.toFixed f x) = Num.toFixed f x.
Proof.
  assert (Hp : 0 < 10 ^ f) by (apply pow_lt; lra).
  assert (Hfix : forall k : Z, (0 <= k)%Z ->
                   Num.toFixed f (IZR k / 10 ^ f) = IZR k / 10 ^ f).
  { intros k Hk. apply IZR_le in Hk.
    assert (Hq : 0 <= IZR k / 10 ^ f).
    { unfold Rdiv. apply Rmult_le_pos; [exact Hk|]. apply Rlt_le.
      now apply Rinv_0_lt_compat. }
    unfold Num.toFixed. destruct (Rlt_dec (IZR k / 10 ^ f) 0); [lra|].
    replace (IZR k / 10 ^ f * 10 ^ f) with (IZR k) by (field; lra).
    rewrite (round_half_up_unique (IZR k) k) by lra. reflexivity. }
  assert (Hneg : forall k : Z, (0 <= k)%Z ->
                   Num.toFixed f (- (IZR k / 10 ^ f)) = - (IZR k / 10 ^ f)).
  { intros k Hk. destruct (Z.eq_dec k 0) as [-> | Hne].
    - replace (- (0 / 10 ^ f)) with (IZR 0 / 10 ^ f) by (field; lra).
      apply Hfix. lia.
    - assert (Hkpos : 0 < IZR k) by (apply IZR_lt; lia).
      assert (Hq : 0 < IZR k / 10 ^ f).
      { unfold Rdiv. apply Rmult_lt_0_compat; [exact Hkpos|].
        now apply Rinv_0_lt_compat. }
      unfold Num.toFixed. destruct (Rlt_dec (- (IZR k / 10 ^ f)) 0); [|lra].
      replace (- - (IZR k / 10 ^ f) * 10 ^ f) with (IZR k) by (field; lra).
      rewrite (round_half_up_unique (IZR k) k) by lra. reflexivity. }
  assert (Hform : exists k : Z, (0 <= k)%Z
                    /\ (Num.toFixed f x = IZR k / 10 ^ f
                        \/ Num.toFixed f x = - (IZR k / 10 ^ f))).
  { unfold Num.toFixed. destruct (Rlt_dec x 0).
    - exists (Num.round_half_up (- x * 10 ^ f)). split; [|now right].
      apply round_half_up_nonneg, Rmult_le_pos; lra.
    - exists (Num.round_half_up (x * 10 ^ f)). split; [|now left].
      apply round_half_up_nonneg, Rmult_le_pos; lra. }
  destruct Hform as (k & Hk & [-> | ->]); auto.
Qed.

(** X11. The pose and velocities stored from telemetry are rounded
    values: x and y are within 0.0005 of the reported position and the
    velocities within 0.005 of the reported ones, and every stored
    number is unchanged by a further rounding to the same number of
    decimals. *)
Theorem odom_values_are_rounded o s :
  Rabs (pose_x (currentPose (model (onOdom o s))) - position_x o) <= 5 / 10000
  /\ Rabs (pose_y (currentPose (model (onOdom o s))) - position_y o) <= 5 / 10000
  /\ Rabs (linearVel (model (onOdom o s)) - linear_x o) <= 5 / 1000
  /\ Rabs (angularVel (model (onOdom o s)) - angular_z o) <= 5 / 1000
  /\ Num.toFixed 3 (pose_x (currentPose (model (onOdom o s))))
     = pose_x (currentPose (model (onOdom o s)))
  /\ Num.toFixed 3 (pose_y (currentPose (model (onOdom o s))))
     = pose_y (currentPose (model (onOdom o s)))
  /\ Num.toFixed 1 (theta (currentPose (model (onOdom o s))))
     = theta (currentPose (model (onOdom o s)))
  /\ Num.toFixed 2 (linearVel (model (onOdom o s))) = linearVel (model (onOdom o s))
  /\ Num.toFixed 2 (angularVel (model (onOdom o s))) = angularVel (model (onOdom o s)).
Proof.
  cbn [onOdom setCurrentPose setLinearVel setAngularVel upd_model model currentPose
       pose_x pose_y theta linearVel angularVel].
  repeat split; try apply toFixed_fixed_point;
    (eapply Rle_trans; [apply toFixed_error | simpl; lra]).
Qed.

(** ** Invariants of the console *)

(** A property kept by every timer action, and not depending on the
    clock or the timer list, is kept by [advance]. *)
Lemma run_timers_preserves (P : state -> Prop) :
  (forall a s, P s -> P (fire a s)) ->
  (forall n s, P s -> P (set_now n s)) ->
  (forall id s, P s -> P (clearTimeout id s)) ->
  forall k t s, P s -> P (run_timers k t s).
Proof.
  intros Hfire Hnow Hclear. induction k as [|k IH]; intros t s HP; cbn [run_timers];
    [exact HP|].
  destruct (next_due t (timers (rt s))); [|exact HP].
  apply IH, Hfire, Hclear, Hnow, HP.
Qed.

Lemma advance_preserves (P : state -> Prop) :
  (forall a s, P s -> P (fire a s)) ->
  (forall n s, P s -> P (set_now n s)) ->
  (forall id s, P s -> P (clearTimeout id s)) ->
  forall t s, P s -> P (advance t s).
Proof.
  intros Hfire Hnow Hclear t s HP. unfold advance.
  apply Hnow. now apply run_timers_preserves.
Qed.

Lemma run_preserves (P : state -> Prop) :
  (forall s e, P s -> P (step s e)) ->
  forall es s, P s -> P (run s es).
Proof.
  intros Hstep. induction es as [|e es IH]; intros s HP; [exact HP|].
  apply IH, Hstep, HP.
Qed.

(** Split on every test of a handler and close each case by
    computation, an assumption or a contradiction. *)
Ltac cases :=
  unfold_handlers;
  repeat (cbn -[Rmax Rmin]; try break_match);
  cbn -[Rmax Rmin] in *;
  try solve [reflexivity | assumption | congruence | discriminate | auto
            | intuition congruence].

Lemma step_waypointIndex s e :
  currentWaypointIndex (ui s) = 0%nat -> currentWaypointIndex (ui (step s e)) = 0%nat.
Proof.
  intros H0. destruct e; try solve [cases].
  cbn [step]. apply (advance_preserves (fun s => currentWaypointIndex (ui s) = 0%nat));
    try solve [intros; assumption].
  intros a s' Hs'. destruct a; unfold fire; cases.
Qed.

(** X12. The patrol target never advances: in every state the console
    can reach, [currentWaypointIndex] is 0, so the only waypoint ever
    painted in the highlight colour is the first one, and only while
    patrolling. *)
Theorem patrol_target_never_advances clientW clientH es index :
  currentWaypointIndex (ui (run (initial clientW clientH) es)) = 0%nat
  /\ (Paint.highlighted
        (currentWaypointIndex (ui (run (initial clientW clientH) es)))
        (isPatrolling (ui (run (initial clientW clientH) es))) index = true
      <-> index = 0%nat /\ isPatrolling (ui (run (initial clientW clientH) es)) = true).
Proof.
  assert (H0 : currentWaypointIndex (ui (run (initial clientW clientH) es)) = 0%nat).
  { apply (run_preserves (fun s => currentWaypointIndex (ui s) = 0%nat)).
    - intros s e. apply step_waypointIndex.
    - reflexivity. }
  split; [exact H0|]. rewrite H0. unfold Paint.highlighted.
  rewrite andb_true_iff, Nat.eqb_eq. tauto.
Qed.

(** ** Waypoint orders *)

Lemma step_waypoints_cases s e :
  waypoints (model (step s e)) = waypoints (model s)
  \/ exists id x y,
       waypoints (model (step s e))
       = waypoints (model s)
           ++ [{| wp_id := id; wp_x := x; wp_y := y;
                  order := (List.length (waypoints (model s)) + 1)%nat |}].
Proof.
  destruct e; try solve [left; frame].
  - left. unfold step, advance. cbn. apply run_timers_waypoints.
  - unfold step, handleMapClick.
    destruct (mapData (model s)); [|now left].
    destruct (currentMode (ui s)); try solve [left; frame].
    right. eexists _, _, _. cbn. reflexivity.
Qed.

Lemma step_orders s e :
  map order (waypoints (model s)) = seq 1 (List.length (waypoints (model s)))
  /\ (3 <= List.length (waypoints (model s)))%nat ->
  map order (waypoints (model (step s e)))
  = seq 1 (List.length (waypoints (model (step s e))))
  /\ (3 <= List.length (waypoints (model (step s e))))%nat.
Proof.
  intros [Hord Hlen].
  destruct (step_waypoints_cases s e) as [-> | (id & x & y & ->)]; [now split|].
  rewrite map_app, length_app, Hord. cbn [map List.length order].
  split; [|lia].
  replace (List.length (waypoints (model s)) + 1)%nat
    with (S (List.length (waypoints (model s)))) by lia.
  now rewrite seq_S.
Qed.

(** X13. In every state the console can reach, the waypoints are
    numbered 1, 2, ..., n in list order without gap or repetition, and
    there are at least the three seeded ones; so the patrol button never
    meets an empty list and always toggles [isPatrolling]. *)
Theorem waypoint_orders_are_consecutive clientW clientH es :
  map order (waypoints (model (run (initial clientW clientH) es)))
  = seq 1 (List.length (waypoints (model (run (initial clientW clientH) es))))
  /\ (3 <= List.length (waypoints (model (run (initial clientW clientH) es))))%nat
  /\ isPatrolling (ui (step (run (initial clientW clientH) es) TogglePatrol))
     = negb (isPatrolling (ui (run (initial clientW clientH) es))).
Proof.
  assert (H : map order (waypoints (model (run (initial clientW clientH) es)))
              = seq 1 (List.length (waypoints (model (run (initial clientW clientH) es))))
              /\ (3 <= List.length (waypoints (model (run (initial clientW clientH) es))))%nat).
  { apply (run_preserves
             (fun s => map order (waypoints (model s))
                       = seq 1 (List.length (waypoints (model s)))
                       /\ (3 <= List.length (waypoints (model s)))%nat)).
    - intros s e. apply step_orders.
    - cbn. split; [reflexivity | lia]. }
  destruct H as [Hord Hlen]. repeat split; trivial.
  cbn [step]. unfold togglePatrol.
  destruct (waypoints (model (run (initial clientW clientH) es))) as [|w ws];
    [cbn in Hlen; lia|].
  now destruct (isPatrolling (ui (run (initial clientW clientH) es))).
Qed.

(** ** Stations *)

Lemma step_stations_cases s e :
  stations (model (step s e)) = stations (model s)
  \/ (exists id name x y,
        stations (model (step s e))
        = stations (model s)
            ++ [{| st_id := id; st_name := name; st_x := x; st_y := y; st_type := work |}])
  \/ (exists f, stations (model (step s e)) = filter f (stations (model s))).
Proof.
  destruct e; try solve [left; frame].
  - left. cbn [step].
    apply (advance_preserves (fun s' => stations (model s') = stations (model s)));
      try solve [intros; assumption | reflexivity].
    intros a s' Hs'. rewrite <- Hs'. destruct a; unfold fire; frame.
  - unfold step, handleMapClick.
    destruct (mapData (model s)); [|now left].
    destruct (currentMode (ui s)); try solve [left; frame].
    destruct (blank (newStationName (ui s))); [now left|].
    right; left. eexists _, _, _, _. cbn. reflexivity.
  - right; right. eexists. cbn. reflexivity.
Qed.

Lemma length_filter_filter {A : Type} (f g : A -> bool) l :
  (List.length (filter f (filter g l)) <= List.length (filter f l))%nat.
Proof.
  induction l as [|a l IH]; cbn; [lia|].
  destruct (g a), (f a) eqn:Hf; cbn; rewrite ?Hf; cbn; lia.
Qed.

Lemma step_chargingCount s e : (chargingCount (step s e) <= chargingCount s)%nat.
Proof.
  unfold chargingCount.
  destruct (step_stations_cases s e)
    as [-> | [(id & name & x & y & ->) | (f & ->)]].
  - lia.
  - rewrite filter_app. cbn. rewrite app_nil_r. lia.
  - apply length_filter_filter.
Qed.

Lemma run_chargingCount es :
  forall s, (chargingCount (run s es) <= chargingCount s)%nat.
Proof.
  induction es as [|e es IH]; intros s; [cbn; lia|].
  change (run s (e :: es)) with (run (step s e) es).
  eapply Nat.le_trans; [apply IH | apply step_chargingCount].
Qed.

Lemma find_filter_nil {A : Type} (f : A -> bool) l :
  List.length (filter f l) = 0%nat -> find f l = None.
Proof.
  induction l as [|a l IH]; cbn; [reflexivity|].
  destruct (f a); cbn; [discriminate | exact IH].
Qed.

(** X14. Clicks only add work stations, so the number of charging
    stations never grows; once the last charging station has been
    deleted, no later event brings one back and the "return to charging
    station" action does nothing from then on. *)
Theorem charging_station_never_returns s (Hnone : chargingCount s = 0%nat) es :
  (forall s' es', (chargingCount (run s' es') <= chargingCount s')%nat)
  /\ chargingCount (run s es) = 0%nat
  /\ step (run s es) GoCharging = run s es.
Proof.
  assert (H0 : chargingCount (run s es) = 0%nat)
    by (pose proof (run_chargingCount es s); lia).
  split; [intros s' es'; apply run_chargingCount | split; [exact H0|]].
  cbn [step]. unfold goCharging.
  change (fun st : station => match st_type st with charging => true | work => false end)
    with isCharging.
  now rewrite (find_filter_nil isCharging _ H0).
Qed.

Lemma charging_station_never_returns_witness :
  chargingCount (run (step (initial 800 400) (DeleteStation 1))
                     [SetCurrentMode mapping; GoCharging]) = 0%nat.
Proof.
  apply (charging_station_never_returns (step (initial 800 400) (DeleteStation 1))
           eq_refl [SetCurrentMode mapping; GoCharging]).
Defined.



(** ** Resources of a topic session *)

Ltac grows :=
  first [ exists []; rewrite app_nil_r; reflexivity
        | eexists; rewrite <- ?app_assoc; reflexivity ].

Lemma fire_topics a s :
  exists added, topics (sess (fire a s)) = topics (sess s) ++ added.
Proof.
  destruct a; unfold fire; unfold_handlers;
    repeat (cbn; try break_match); cbn; grows.
Qed.

Lemma fire_intervals a s :
  exists added, intervals (sess (fire a s)) = intervals (sess s) ++ added.
Proof.
  destruct a; unfold fire; unfold_handlers;
    repeat (cbn; try break_match); cbn; grows.
Qed.

Lemma step_topics s e :
  exists added, topics (sess (step s e)) = topics (sess s) ++ added.
Proof.
  destruct e; try solve [exists []; rewrite app_nil_r; frame].
  cbn [step].
  apply (advance_preserves
           (fun s' => exists added, topics (sess s') = topics (sess s) ++ added));
    try solve [intros; assumption].
  - intros a s' [a1 H1]. destruct (fire_topics a s') as [a2 H2].
    exists (a1 ++ a2). now rewrite H2, H1, app_assoc.
  - exists []. now rewrite app_nil_r.
Qed.

Lemma step_intervals s e :
  exists added, intervals (sess (step s e)) = intervals (sess s) ++ added.
Proof.
  destruct e; try solve [exists []; rewrite app_nil_r; frame].
  cbn [step].
  apply (advance_preserves
           (fun s' => exists added, intervals (sess s') = intervals (sess s) ++ added));
    try solve [intros; assumption].
  - intros a s' [a1 H1]. destruct (fire_intervals a s') as [a2 H2].
    exists (a1 ++ a2). now rewrite H2, H1, app_assoc.
  - exists []. now rewrite app_nil_r.
Qed.

Lemma step_refs s e :
  (cmdVelRef (sess s) <> None -> cmdVelRef (sess (step s e)) <> None)
  /\ (odomSubRef (sess s) <> None -> odomSubRef (sess (step s e)) <> None)
  /\ (mapSubRef (sess s) <> None -> mapSubRef (sess (step s e)) <> None).
Proof.
  destruct e; try solve [repeat split; cases].
  cbn [step].
  apply (advance_preserves
           (fun s' => (cmdVelRef (sess s) <> None -> cmdVelRef (sess s') <> None)
                      /\ (odomSubRef (sess s) <> None -> odomSubRef (sess s') <> None)
                      /\ (mapSubRef (sess s) <> None -> mapSubRef (sess s') <> None)));
    try solve [intros; assumption | tauto].
  intros a s' (H1 & H2 & H3).
  assert (Hf : (cmdVelRef (sess s') <> None -> cmdVelRef (sess (fire a s')) <> None)
               /\ (odomSubRef (sess s') <> None -> odomSubRef (sess (fire a s')) <> None)
               /\ (mapSubRef (sess s') <> None -> mapSubRef (sess (fire a s')) <> None)).
  { destruct a; unfold fire; repeat split; cases. }
  tauto.
Qed.

(** X16. Nothing a topic session creates is ever released: over any run
    of events the list of topic objects (with their subscriptions) and
    the list of battery intervals only grow at the end, and a topic
    handle that is set is never reset to null.  In particular an error
    or close of the connection leaves every subscription and the command
    handle in place. *)
Theorem session_resources_never_released s es :
  (exists added, topics (sess (run s es)) = topics (sess s) ++ added)
  /\ (exists added, intervals (sess (run s es)) = intervals (sess s) ++ added)
  /\ (cmdVelRef (sess s) <> None -> cmdVelRef (sess (run s es)) <> None)
  /\ (odomSubRef (sess s) <> None -> odomSubRef (sess (run s es)) <> None)
  /\ (mapSubRef (sess s) <> None -> mapSubRef (sess (run s es)) <> None)
  /\ (forall inst, topics (sess (step s (RosClose inst))) = topics (sess s)
                   /\ cmdVelRef (sess (step s (RosClose inst))) = cmdVelRef (sess s)
                   /\ topics (sess (step s (RosError inst))) = topics (sess s)
                   /\ cmdVelRef (sess (step s (RosError inst))) = cmdVelRef (sess s)).
Proof.
  revert s. induction es as [|e es IH]; intros s.
  - repeat split; try (exists []; cbn; now rewrite app_nil_r); try (cbn; tauto);
      frame.
  - change (run s (e :: es)) with (run (step s e) es).
    destruct (IH (step s e)) as ([a2 H2] & [b2 G2] & R1 & R2 & R3 & _).
    destruct (step_topics s e) as [a1 H1]. destruct (step_intervals s e) as [b1 G1].
    destruct (step_refs s e) as (Q1 & Q2 & Q3).
    repeat split; try tauto.
    + exists (a1 ++ a2). now rewrite H2, H1, app_assoc.
    + exists (b1 ++ b2). now rewrite G2, G1, app_assoc.
    + frame.
    + frame.
    + frame.
    + frame.
Qed.

Lemma session_resources_never_released_witness :
  cmdVelRef (sess (run connected [RosError 0; RosClose 0; ClickConnect url])) <> None.
Proof.
  apply (session_resources_never_released connected
           [RosError 0; RosClose 0; ClickConnect url]).
  discriminate.
Defined.

(** ** What is never cleared *)

Lemma step_never_clears s e :
  (goalPose (model s) <> None -> goalPose (model (step s e)) <> None)
  /\ (mapData (model s) <> None -> mapData (model (step s e)) <> None).
Proof.
  destruct e; try solve [repeat split; cases].
  cbn [step].
  apply (advance_preserves
           (fun s' => (goalPose (model s) <> None -> goalPose (model s') <> None)
                      /\ (mapData (model s) <> None -> mapData (model s') <> None)));
    try solve [intros; assumption | tauto].
  intros a s' (H1 & H2).
  assert (Hf : (goalPose (model s') <> None -> goalPose (model (fire a s')) <> None)
               /\ (mapData (model s') <> None -> mapData (model (fire a s')) <> None)).
  { destruct a; unfold fire; repeat split; cases. }
  tauto.
Qed.

(** X17. There is no operation that clears the navigation goal or the
    map: once a goal has been set, every later state has a goal, and
    once a map has been received, every later state has a map. *)
Theorem goal_and_map_are_never_cleared s es :
  (goalPose (model s) <> None -> goalPose (model (run s es)) <> None)
  /\ (mapData (model s) <> None -> mapData (model (run s es)) <> None).
Proof.
  revert s. induction es as [|e es IH]; intros s; [cbn; tauto|].
  change (run s (e :: es)) with (run (step s e) es).
  destruct (IH (step s e)) as [H1 H2]. destruct (step_never_clears s e) as [G1 G2].
  tauto.
Qed.

Lemma goal_and_map_are_never_cleared_witness :
  mapData (model (run (withMap navigation [])
                      [MapClick 10 10; StopRobot; ResetMapView])) <> None.
Proof.
  apply (goal_and_map_are_never_cleared (withMap navigation [])
           [MapClick 10 10; StopRobot; ResetMapView]).
  discriminate.
Defined.

(** ** Velocity commands *)

Lemma step_published_cases s e :
  published (sess (step s e)) = published (sess s)
  \/ exists t tw,
       published (sess (step s e)) = published (sess s) ++ [(t, tw)]
       /\ rosConnected (conn s) = true
       /\ cmdVelRef (sess s) = Some t
       /\ (e = StopRobot \/ exists d, e = MoveRobot d)
       /\ ((twist_linear_x tw = 0
            /\ (twist_angular_z tw = 0 \/ twist_angular_z tw = angularSpeed (ui s)
                \/ twist_angular_z tw = - angularSpeed (ui s)))
           \/ (twist_angular_z tw = 0
               /\ (twist_linear_x tw = speed (ui s)
                   \/ twist_linear_x tw = - speed (ui s)))).
Proof.
  destruct e; try solve [left; frame].
  - left. unfold step, advance. cbn. apply run_timers_published.
  - cbn [step]. unfold moveRobot, publishCmdVel.
    destruct (rosConnected (conn s)) eqn:Hc; [|left; reflexivity].
    destruct (cmdVelRef (sess s)) as [t|] eqn:Hr.
    + right. destruct d; cbn; eexists _, _;
        (split; [reflexivity|]); repeat split; eauto; cbn; tauto.
    + left. destruct d; reflexivity.
  - cbn [step]. unfold stopRobot, publishCmdVel.
    destruct (rosConnected (conn s)) eqn:Hc; [|left; reflexivity].
    destruct (cmdVelRef (sess s)) as [t|] eqn:Hr; [|left; reflexivity].
    right. eexists _, _. cbn. split; [reflexivity|]. repeat split; eauto.
Qed.

(** X18. Over any run of events the list of published velocity commands
    only grows at the end, and every command the console has published
    since its first render is a pure translation or a pure rotation:
    its linear or its angular component is zero. *)
Theorem published_commands_shape clientW clientH es :
  (forall s es', exists added,
        published (sess (run s es')) = published (sess s) ++ added)
  /\ Forall (fun m => twist_linear_x (snd m) = 0 \/ twist_angular_z (snd m) = 0)
            (published (sess (run (initial clientW clientH) es))).
Proof.
  split.
  - intros s es'. revert s. induction es' as [|e es' IH]; intros s.
    + exists []. cbn. now rewrite app_nil_r.
    + change (run s (e :: es')) with (run (step s e) es').
      destruct (IH (step s e)) as [a2 H2].
      destruct (step_published_cases s e) as [H1 | (t & tw & H1 & _)].
      * exists a2. now rewrite H2, H1.
      * exists ([(t, tw)] ++ a2). now rewrite H2, H1, <- app_assoc.
  - apply (run_preserves
             (fun s => Forall (fun m => twist_linear_x (snd m) = 0
                                        \/ twist_angular_z (snd m) = 0)
                              (published (sess s)))).
    + intros s e HP.
      destruct (step_published_cases s e) as [-> | (t & tw & -> & _ & _ & _ & Hshape)];
        [exact HP|].
      apply Forall_app. split; [exact HP|].
      constructor; [cbn; tauto | constructor].
    + constructor.
Qed.

(** X19. A move request made while [rosConnected] is already true but
    before the topics are set up (the handle is still null) publishes
    nothing, yet it is logged as a move command like a sent one. *)
Theorem move_before_setup_is_dropped s d
    (Hconn : rosConnected (conn s) = true) (Href : cmdVelRef (sess s) = None) :
  published (sess (moveRobot d s)) = published (sess s)
  /\ exists linear angular,
       logs (ui (moveRobot d s))
       = Logs.append_log
           {| time := now (rt s); type := Info; message := MsgMoveCommand linear angular |}
           (logs (ui s)).
Proof.
  unfold moveRobot, publishCmdVel. rewrite Hconn, Href.
  destruct d; cbn; (split; [reflexivity|]); eexists _, _; reflexivity.
Qed.

Lemma move_before_setup_is_dropped_witness :
  published (sess (moveRobot forward justConnected)) = published (sess justConnected).
Proof.
  apply (move_before_setup_is_dropped justConnected forward eq_refl eq_refl).
Defined.

(** ** Status text and connectivity flag *)

Lemma fire_status_connected a s :
  (robotStatus (conn s) = StConnected -> rosConnected (conn s) = true) ->
  robotStatus (conn (fire a s)) = StConnected -> rosConnected (conn (fire a s)) = true.
Proof. intros H. destruct a; unfold fire; cases. Qed.

Lemma step_status_connected s e :
  (robotStatus (conn s) = StConnected -> rosConnected (conn s) = true) ->
  robotStatus (conn (step s e)) = StConnected -> rosConnected (conn (step s e)) = true.
Proof.
  intros H. destruct e; try solve [cases].
  cbn [step].
  apply (advance_preserves
           (fun s' => robotStatus (conn s') = StConnected -> rosConnected (conn s') = true));
    try solve [intros ? ? HP; exact HP | exact H].
  intros a s'. apply fire_status_connected.
Qed.

(** X20. In every state the console can reach, the status "connected"
    is shown only while [rosConnected] is true: every handler that
    clears the flag also replaces the status. *)
Theorem connected_status_implies_flag clientW clientH es :
  robotStatus (conn (run (initial clientW clientH) es)) = StConnected ->
  rosConnected (conn (run (initial clientW clientH) es)) = true.
Proof.
  apply (run_preserves
           (fun s => robotStatus (conn s) = StConnected -> rosConnected (conn s) = true)).
  - intros s e. apply step_status_connected.
  - cbn. discriminate.
Qed.

Lemma connected_status_implies_flag_witness :
  rosConnected (conn (run (initial 800 400) [Mount true; RosConnection 0; Advance 2000]))
  = true.
Proof.
  apply (connected_status_implies_flag 800 400 [Mount true; RosConnection 0; Advance 2000]).
  reflexivity.
Defined.

(** ** The waypoint path *)

Lemma flat_map_ext_in {A B : Type} (f g : A -> list B) l :
  (forall a, In a l -> f a = g a) -> flat_map f l = flat_map g l.
Proof.
  induction l as [|a l IH]; intros H; cbn; [reflexivity|].
  rewrite (H a) by now left. rewrite IH; [reflexivity|].
  intros b Hb. apply H. now right.
Qed.

Lemma nth_error_rotate {A : Type} (l : list A) k :
  (k < List.length l)%nat ->
  nth_error l (S k mod List.length l) = nth_error (rotate l) k.
Proof.
  destruct l as [|a rest]; cbn [List.length rotate]; [lia|]. intros Hk.
  destruct (Nat.eq_dec k (List.length rest)) as [-> | Hne].
  - rewrite Nat.Div0.mod_same. cbn [nth_error].
    rewrite nth_error_app2 by lia. now rewrite Nat.sub_diag.
  - rewrite Nat.mod_small by lia. cbn [nth_error].
    rewrite nth_error_app1 by lia. reflexivity.
Qed.

Lemma flat_map_zip {A B C : Type} (f : A -> B -> C) (l1 : list A) :
  forall (l2 : list B) start,
    List.length l1 = List.length l2 ->
    flat_map (fun k => match nth_error l1 (k - start), nth_error l2 (k - start) with
                       | Some x, Some y => [f x y]
                       | _, _ => []
                       end) (seq start (List.length l1))
    = map (fun p => f (fst p) (snd p)) (combine l1 l2).
Proof.
  induction l1 as [|a l1 IH]; intros l2 start Hlen; [reflexivity|].
  destruct l2 as [|b l2]; [discriminate|]. cbn [List.length seq flat_map combine map].
  rewrite Nat.sub_diag. cbn [nth_error app fst snd]. f_equal.
  rewrite <- (IH l2 (S start)) by (cbn in Hlen; lia).
  apply flat_map_ext_in. intros k Hk. apply in_seq in Hk.
  replace (k - start)%nat with (S (k - S start)) by lia. reflexivity.
Qed.

(** X21. The dashed waypoint path is a closed loop: with at least two
    waypoints [drawMap] draws one segment from each waypoint to the next
    one in the list and one from the last back to the first; with fewer
    than two it draws none. *)
Theorem waypoint_path_is_closed cv i zoom pan a b rest :
  Paint.drawPath cv i zoom pan [] = []
  /\ Paint.drawPath cv i zoom pan [a] = []
  /\ Paint.drawPath cv i zoom pan (a :: b :: rest)
     = map (fun p =>
              Renderer.Line (Paint.markerX cv i zoom pan (wp_x (fst p)))
                            (Paint.markerY cv i zoom pan (wp_y (fst p)))
                            (Paint.markerX cv i zoom pan (wp_x (snd p)))
                            (Paint.markerY cv i zoom pan (wp_y (snd p))))
           (combine (a :: b :: rest) (b :: rest ++ [a]))
  /\ List.length (Paint.drawPath cv i zoom pan (a :: b :: rest))
     = List.length (a :: b :: rest).
Proof.
  assert (Hpath : Paint.drawPath cv i zoom pan (a :: b :: rest)
     = map (fun p =>
              Renderer.Line (Paint.markerX cv i zoom pan (wp_x (fst p)))
                            (Paint.markerY cv i zoom pan (wp_y (fst p)))
                            (Paint.markerX cv i zoom pan (wp_x (snd p)))
                            (Paint.markerY cv i zoom pan (wp_y (snd p))))
           (combine (a :: b :: rest) (b :: rest ++ [a]))).
  { set (wps := a :: b :: rest).
    change (b :: rest ++ [a]) with (rotate wps).
    unfold Paint.drawPath.
    replace (1 <? List.length wps)%nat with true
      by (symmetry; apply Nat.ltb_lt; cbn; lia).
    rewrite <- (flat_map_zip
                  (fun c n => Renderer.Line (Paint.markerX cv i zoom pan (wp_x c))
                                            (Paint.markerY cv i zoom pan (wp_y c))
                                            (Paint.markerX cv i zoom pan (wp_x n))
                                            (Paint.markerY cv i zoom pan (wp_y n)))
                  wps (rotate wps) 0%nat)
      by (cbn; rewrite length_app; cbn; lia).
    apply flat_map_ext_in. intros k Hk. apply in_seq in Hk.
    unfold Paint.pathSegment. rewrite nth_error_rotate by lia.
    now rewrite Nat.sub_0_r. }
  repeat split; trivial.
  rewrite Hpath, length_map, length_combine. cbn [List.length].
  rewrite length_app. cbn [List.length]. lia.
Qed.

(** ** The simulated battery *)

Lemma tick_bounds level : 20 <= level -> 20 <= Battery.tick level <= level.
Proof.
  intros H. unfold Battery.tick, Rmax. destruct (Rle_dec 20 (level - 1 / 10)); lra.
Qed.

Lemma after_closed_form n :
  forall level, 20 <= level ->
                Battery.after n level = Rmax 20 (level - INR n / 10).
Proof.
  induction n as [|n IH]; intros level H.
  - cbn [Battery.after INR]. rewrite Rmax_right; lra.
  - cbn [Battery.after]. rewrite IH by (apply tick_bounds; exact H).
    rewrite S_INR. unfold Battery.tick.
    pose proof (pos_INR n) as Hn.
    unfold Rmax. destruct (Rle_dec 20 (level - 1 / 10)).
    all: repeat match goal with
           | |- context [Rle_dec ?a ?b] => destruct (Rle_dec a b)
           end; lra.
Qed.

(** X22. The simulated battery only drains, by 0.1 per tick, and stops
    at 20: from a level of at least 20, after n ticks it is
    max(20, level - n/10); it never rises, never falls below 20, is
    exactly 20 once n/10 exceeds level - 20, and for levels up to 100
    the monitor's bar width is the level itself.  The indicator colour
    only moves away from green and, once red, stays red. *)
Theorem battery_drains_to_floor n level (Hlevel : 20 <= level) :
  Battery.after n level = Rmax 20 (level - INR n / 10)
  /\ 20 <= Battery.after n level <= level
  /\ Battery.after (S n) level <= Battery.after n level
  /\ (level - 20 < INR n / 10 -> Battery.after n level = 20)
  /\ (level <= 100 -> Battery.barWidth (Battery.after n level) = Battery.after n level)
  /\ (Battery.getBatteryColor (Battery.after n level) = "text-red-400"%string ->
      Battery.getBatteryColor (Battery.after (S n) level) = "text-red-400"%string)
  /\ (Battery.getBatteryColor (Battery.after (S n) level) = "text-green-400"%string ->
      Battery.getBatteryColor (Battery.after n level) = "text-green-400"%string).
Proof.
  pose proof (pos_INR n) as Hn.
  assert (Hn' : Battery.after (S n) level = Rmax 20 (level - INR (S n) / 10))
    by now apply after_closed_form.
  rewrite S_INR in Hn'. rewrite Hn'.
  rewrite (after_closed_form n level Hlevel).
  set (a := Rmax 20 (level - INR n / 10)).
  assert (Hlo : 20 <= a) by apply Rmax_l.
  assert (Hhi : a <= level) by (apply Rmax_lub; lra).
  assert (Hr : level - INR n / 10 <= a) by apply Rmax_r.
  repeat split; trivial.
  - apply Rmax_lub; lra.
  - intros Hn20. apply Rmax_left. lra.
  - intros H100. unfold Battery.barWidth.
    rewrite Rmin_right by lra. apply Rmax_right. lra.
  - assert (Hstep : Rmax 20 (level - (INR n + 1) / 10) <= a) by (apply Rmax_lub; lra).
    unfold Battery.getBatteryColor.
    repeat match goal with
           | |- context [Rlt_dec ?x ?y] => destruct (Rlt_dec x y)
           end; intros; try discriminate; try reflexivity; lra.
  - assert (Hstep : Rmax 20 (level - (INR n + 1) / 10) <= a) by (apply Rmax_lub; lra).
    unfold Battery.getBatteryColor.
    repeat match goal with
           | |- context [Rlt_dec ?x ?y] => destruct (Rlt_dec x y)
           end; intros; try discriminate; try reflexivity; lra.
Qed.

Lemma battery_drains_to_floor_witness :
  Battery.after 10 Battery.initialLevel = Rmax 20 (Battery.initialLevel - INR 10 / 10).
Proof.
  refine (proj1 (battery_drains_to_floor 10 Battery.initialLevel _)).
  unfold Battery.initialLevel. lra.
Defined.

(** ** Status colours *)

(** X23. Of all the status texts the console sets, only "connected" is
    shown green and only the two texts that contain the word "error"
    are shown red; every other one, the timeouts, the failed socket
    test and the closed connection included, is shown gray.  The blue
    and purple branches of [getStatusColor] are never taken. *)
Theorem status_colours st :
  StatusText.getStatusColor (StatusText.statusText st)
  = match st with
    | StConnected => "text-green-400"
    | StMountError | StRosError => "text-red-400"
    | _ => "text-gray-400"
    end%string.
Proof. destruct st; vm_compute; reflexivity. Qed.

(** ** The cross-window mirror *)

(** X24. Once the console's writes for a state have reached the store,
    a poll of the monitor page, or the pair of storage events, makes the
    monitor show exactly the console's log list and the console's
    connectivity, status and pose, whatever it showed before.  After
    only the single-entry event the monitor shows at most ten entries.
    The clear button empties the list and removes the stored list, so a
    poll shows nothing until the console writes again; the console's
    next write brings its whole list back, not only the new entry. *)
Theorem mirror_shows_console_logs battery s s2 st m :
  Mirror.shown (Mirror.poll (Mirror.publish battery s st) m)
  = map Mirror.PlainEntry (logs (ui s))
  /\ Mirror.snap_connected (Mirror.robotState (Mirror.poll (Mirror.publish battery s st) m))
     = rosConnected (conn s)
  /\ Mirror.snap_status (Mirror.robotState (Mirror.poll (Mirror.publish battery s st) m))
     = robotStatus (conn s)
  /\ Mirror.snap_pose (Mirror.robotState (Mirror.poll (Mirror.publish battery s st) m))
     = currentPose (model s)
  /\ Mirror.shown
       (Mirror.onStorage Monitor.amr_logs_state (Mirror.publish battery s st)
          (Mirror.onStorage Monitor.amr_log_broadcast (Mirror.publish battery s st) m))
     = map Mirror.PlainEntry (logs (ui s))
  /\ (List.length
        (Mirror.shown
           (Mirror.onStorage Monitor.amr_log_broadcast (Mirror.publish battery s st) m))
      <= Nat.max 10 (List.length (Mirror.shown m)))%nat
  /\ Mirror.shown
       (Mirror.poll (fst (Mirror.clearLogs (Mirror.publish battery s st) m))
                    (snd (Mirror.clearLogs (Mirror.publish battery s st) m)))
     = []
  /\ Mirror.shown
       (Mirror.poll
          (Mirror.publish battery s2
             (fst (Mirror.clearLogs (Mirror.publish battery s st) m)))
          (snd (Mirror.clearLogs (Mirror.publish battery s st) m)))
     = map Mirror.PlainEntry (logs (ui s2)).
Proof.
  repeat split.
  cbn -[Nat.max].
  destruct (log_broadcast (ui s)) as [e|]; [|destruct (Mirror.amr_log_broadcast st)];
    cbn -[Nat.max].
  - pose proof (LogFacts.length_append_log (Mirror.EntryObj e (time e)) (Mirror.shown m)).
    lia.
  - pose proof (LogFacts.length_append_log s0 (Mirror.shown m)). lia.
  - lia.
Qed.

(** ** Timer handles are not reused *)

Lemma fresh_map (g : rosInstance -> rosInstance) m l :
  (forall r, inst_timeout (g r) = inst_timeout r) ->
  Forall (fun r => (inst_timeout r < m)%nat) l ->
  Forall (fun r => (inst_timeout r < m)%nat) (map g l).
Proof.
  intros Hg Hl. apply Forall_map. eapply Forall_impl; [|exact Hl].
  cbn. intros r Hr. now rewrite Hg.
Qed.

Ltac fresh_ids H :=
  repeat match goal with
         | |- Forall _ (_ ++ _) => apply Forall_app; split
         | |- Forall _ (map _ _) =>
             apply fresh_map;
             [ let r := fresh "r" in
               intros r; try break_match; reflexivity | ]
         | |- Forall _ (_ :: _) => constructor; [cbn; lia|]
         | |- Forall _ [] => constructor
         | |- Forall _ (instances (conn _)) =>
             eapply Forall_impl; [|exact H]; cbn; intros; lia
         end.

Lemma fire_fresh a s :
  Forall (fun r => (inst_timeout r < nextId (rt s))%nat) (instances (conn s)) ->
  Forall (fun r => (inst_timeout r < nextId (rt (fire a s)))%nat)
         (instances (conn (fire a s))).
Proof.
  intros H. destruct a; unfold fire; unfold_handlers;
    repeat (cbn; try break_match); cbn; fresh_ids H.
Qed.

Lemma step_fresh s e :
  Forall (fun r => (inst_timeout r < nextId (rt s))%nat) (instances (conn s)) ->
  Forall (fun r => (inst_timeout r < nextId (rt (step s e)))%nat)
         (instances (conn (step s e))).
Proof.
  intros H. destruct e;
    try solve [unfold_handlers; repeat (cbn; try break_match); cbn; fresh_ids H].
  cbn [step].
  apply (advance_preserves
           (fun s' => Forall (fun r => (inst_timeout r < nextId (rt s'))%nat)
                             (instances (conn s'))));
    try solve [intros ? ? HP; exact HP | exact H].
  intros a s'. apply fire_fresh.
Qed.

Lemma reachable_fresh clientW clientH es :
  Forall (fun r => (inst_timeout r < nextId (rt (run (initial clientW clientH) es)))%nat)
         (instances (conn (run (initial clientW clientH) es))).
Proof.
  apply (run_preserves
           (fun s => Forall (fun r => (inst_timeout r < nextId (rt s))%nat)
                            (instances (conn s)))).
  - intros s e. apply step_fresh.
  - constructor.
Qed.

(** X25. In every state the console can reach, a "connection", "error"
    or "close" event of an instance cancels the timeout armed for that
    instance for good: afterwards no pending timer carries its handle
    (the timer armed by the connection listener has a new handle), so
    that timeout can no longer fire. *)
Theorem instance_event_cancels_its_timeout clientW clientH es inst r tm
    (Hinst : find_instance inst (run (initial clientW clientH) es) = Some r) :
  (In tm (timers (rt (step (run (initial clientW clientH) es) (RosConnection inst)))) ->
   timer_id tm <> inst_timeout r)
  /\ (In tm (timers (rt (step (run (initial clientW clientH) es) (RosError inst)))) ->
      timer_id tm <> inst_timeout r)
  /\ (In tm (timers (rt (step (run (initial clientW clientH) es) (RosClose inst)))) ->
      timer_id tm <> inst_timeout r).
Proof.
  pose proof (reachable_fresh clientW clientH es) as Hfresh.
  set (s := run (initial clientW clientH) es) in *.
  assert (Hr : (inst_timeout r < nextId (rt s))%nat).
  { unfold find_instance in Hinst. apply find_some in Hinst.
    rewrite Forall_forall in Hfresh. apply Hfresh. tauto. }
  assert (Hfilter : forall l,
             In tm (filter (fun t => negb (Nat.eqb (timer_id t) (inst_timeout r))) l) ->
             timer_id tm <> inst_timeout r).
  { intros l Hin. apply filter_In in Hin. destruct Hin as [_ Hne].
    apply negb_true_iff, Nat.eqb_neq in Hne. exact Hne. }
  repeat split; cbn [step]; rewrite Hinst; destruct (listeners r); cbn;
    intros Hin; try (apply in_app_or in Hin; destruct Hin as [Hin | [<- | []]]);
    try (now apply (Hfilter _ Hin)); cbn; lia.
Qed.

Lemma instance_event_cancels_its_timeout_witness :
  In {| timer_id := 2; due := 1000; action := SetupTopics 0 |}
     (timers (rt (step (run (initial 800 400) [Mount true]) (RosConnection 0))))
  /\ timer_id {| timer_id := 2; due := 1000; action := SetupTopics 0 |} <> 1%nat.
Proof.
  assert (Hin : In {| timer_id := 2; due := 1000; action := SetupTopics 0 |}
                   (timers (rt (step (run (initial 800 400) [Mount true])
                                     (RosConnection 0)))))
    by (replace (timers (rt (step (run (initial 800 400) [Mount true])
                                  (RosConnection 0))))
          with [{| timer_id := 2; due := 1000%N; action := SetupTopics 0 |}]
          by reflexivity; left; reflexivity).
  split; [exact Hin|].
  exact (proj1 (instance_event_cancels_its_timeout 800 400 [Mount true] 0%nat
                  {| inst_id := 0; listeners := ByMount; inst_timeout := 1;
                     isConnected := false; closeCalled := false |}
                  {| timer_id := 2; due := 1000; action := SetupTopics 0 |} eq_refl) Hin).
Defined.

(** ** Visibility of the robot marker *)

Lemma grid_on_surface cv i zoom :
  (0 < width i)%Z -> (0 < height i)%Z ->
  0 <= clientWidth cv -> 0 <= clientHeight cv -> 0 <= zoom <= 5 / 4 ->
  0 <= Renderer.finalScale cv i zoom
  /\ 0 <= Renderer.offsetX cv i zoom noPan
  /\ Renderer.offsetX cv i zoom noPan + IZR (width i) * Renderer.finalScale cv i zoom
     <= Renderer.displayWidth cv
  /\ 0 <= Renderer.offsetY cv i zoom noPan
  /\ Renderer.offsetY cv i zoom noPan + IZR (height i) * Renderer.finalScale cv i zoom
     <= Renderer.displayHeight cv.
Proof.
  intros Hw Hh Hcw Hch Hzoom.
  destruct (baseScale_bounds cv i Hw Hh Hcw Hch) as (Hb & HbW & HbH).
  assert (HW : 0 < IZR (width i)) by now apply IZR_lt.
  assert (HH : 0 < IZR (height i)) by now apply IZR_lt.
  assert (HdW : 0 < Renderer.displayWidth cv) by (apply or_default_pos; lra).
  assert (HdH : 0 < Renderer.displayHeight cv) by (apply or_default_pos; lra).
  unfold Renderer.offsetX, Renderer.offsetY, Renderer.centerX, Renderer.centerY,
    Renderer.finalScale, noPan. cbn [pt_x pt_y].
  set (bs := Renderer.baseScale cv i) in *.
  assert (H0 : 0 <= bs * zoom) by nra.
  assert (H1 : 0 <= IZR (width i) * bs) by nra.
  assert (H2 : 0 <= IZR (height i) * bs) by nra.
  assert (H3 : IZR (width i) * (bs * zoom) <= Renderer.displayWidth cv) by nra.
  assert (H4 : IZR (height i) * (bs * zoom) <= Renderer.displayHeight cv) by nra.
  repeat split; lra.
Qed.

(** X26. With no pan and a zoom of at most 1.25, a robot whose pose lies
    inside the area covered by the grid is always painted: its marker
    falls on the surface and passes the visibility test of [drawMap]. *)
Theorem robot_inside_map_is_drawn cv i zoom p
    (Hw : (0 < width i)%Z) (Hh : (0 < height i)%Z)
    (Hcw : 0 <= clientWidth cv) (Hch : 0 <= clientHeight cv)
    (Hzoom : 0 <= zoom <= 5 / 4) (Hres : 0 < resolution i)
    (Hx : origin_x i <= pose_x p <= origin_x i + IZR (width i) * resolution i)
    (Hy : origin_y i <= pose_y p <= origin_y i + IZR (height i) * resolution i) :
  0 <= Renderer.robotDisplayX cv i zoom noPan p <= Renderer.displayWidth cv
  /\ 0 <= Renderer.robotDisplayY cv i zoom noPan p <= Renderer.displayHeight cv
  /\ Renderer.robotVisible cv i zoom noPan p = true
  /\ List.length (Renderer.drawRobot cv i zoom noPan p) = 3%nat.
Proof.
  destruct (grid_on_surface cv i zoom Hw Hh Hcw Hch Hzoom) as (Hfs & Hox & HoxW & Hoy & HoyH).
  assert (Hmx : 0 <= Renderer.robotMapX i p <= IZR (width i)).
  { unfold Renderer.robotMapX. split.
    - apply Rmult_le_reg_r with (resolution i); [lra|].
      unfold Rdiv. rewrite Rmult_assoc, Rinv_l by lra. lra.
    - apply Rmult_le_reg_r with (resolution i); [lra|].
      unfold Rdiv. rewrite Rmult_assoc, Rinv_l by lra. lra. }
  assert (Hq : 0 <= (pose_y p - origin_y i) / resolution i <= IZR (height i)).
  { split.
    - apply Rmult_le_reg_r with (resolution i); [lra|].
      unfold Rdiv. rewrite Rmult_assoc, Rinv_l by lra. lra.
    - apply Rmult_le_reg_r with (resolution i); [lra|].
      unfold Rdiv. rewrite Rmult_assoc, Rinv_l by lra. lra. }
  assert (Hmy : 0 <= Renderer.robotMapY i p <= IZR (height i))
    by (unfold Renderer.robotMapY; lra).
  assert (HX : 0 <= Renderer.robotDisplayX cv i zoom noPan p <= Renderer.displayWidth cv).
  { unfold Renderer.robotDisplayX. split; nra. }
  assert (HY : 0 <= Renderer.robotDisplayY cv i zoom noPan p <= Renderer.displayHeight cv).
  { unfold Renderer.robotDisplayY. split; nra. }
  assert (Hvis : Renderer.robotVisible cv i zoom noPan p = true).
  { unfold Renderer.robotVisible.
    repeat match goal with
           | |- context [if ?c then _ else _] => destruct c
           end; try reflexivity; lra. }
  repeat split; try tauto.
  unfold Renderer.drawRobot. now rewrite Hvis.
Qed.

Lemma robot_inside_map_is_drawn_witness :
  Renderer.robotVisible surface grid4 1 noPan {| pose_x := 2; pose_y := 2; theta := 0 |}
  = true.
Proof.
  refine (proj1 (proj2 (proj2
    (robot_inside_map_is_drawn surface grid4 1 {| pose_x := 2; pose_y := 2; theta := 0 |}
       _ _ _ _ _ _ _ _)))).
  - reflexivity.
  - reflexivity.
  - cbn. lra.
  - cbn. lra.
  - lra.
  - cbn. lra.
  - cbn. lra.
  - cbn. lra.
Defined.

End MoreFacts.
